(** * aimakerspace.text_utils: loaders and the character splitter

    A shallow embedding of [aimakerspace/text_utils.py].  Python values are
    modelled as the code has them: [int] is [Z], [str] is a list of Unicode
    code points, a raised exception is a value of [exception] returned on
    the left of a sum, and the mutable loader objects are records threaded
    through every method together with the lines written to standard
    output. *)

From Stdlib Require Import ZArith List Ascii String Lia Sorted DecimalString.
From stdpp Require Import base list gmap strings.

Open Scope Z_scope.

(** ** Python strings, exceptions and builtins *)

(** A [str] is a sequence of code points; [len] counts them. *)
Abbreviation str := (list N).

Definition lit (s : string) : str :=
  map N_of_ascii (list_ascii_of_string s).

Definition len {A} (s : list A) : Z := Z.of_nat (length s).

Record exception := Raise { exc_type : string; exc_message : str }.

Definition ValueError (msg : string) : exception := Raise "ValueError" (lit msg).
Definition AssertionError (msg : string) : exception := Raise "AssertionError" (lit msg).
Definition AttributeError (msg : string) : exception := Raise "AttributeError" (lit msg).

(** The result of an expression that may raise. *)
Abbreviation result A := (exception + A)%type.

(** [len(range(start, stop, step))] for a non-zero step, as CPython
    computes it. *)
Definition range_length (start stop step : Z) : Z :=
  if 0 <? step
  then (if start <? stop then (stop - start - 1) / step + 1 else 0)
  else (if stop <? start then (start - stop - 1) / (- step) + 1 else 0).

(** [range(start, stop, step)], listed. *)
Definition range (start stop step : Z) : result (list Z) :=
  if step =? 0 then inl (ValueError "range() arg 3 must not be zero")
  else inr (map (fun i : nat => start + Z.of_nat i * step)
                (seq 0 (Z.to_nat (range_length start stop step)))).

(** One bound of a slice, adjusted as [s[i:j]] does: a negative bound
    counts from the end, and every bound is clipped to [0, len]. *)
Definition slice_index (n i : Z) : Z :=
  if i <? 0 then Z.max (i + n) 0 else Z.min i n.

(** [s[i:j]]. *)
Definition slice {A} (s : list A) (i j : Z) : list A :=
  let lo := slice_index (len s) i in
  let hi := slice_index (len s) j in
  take (Z.to_nat (hi - lo)) (drop (Z.to_nat lo) s).

(** [s.endswith(suffix)]. *)
Definition endswith (s suffix : str) : bool :=
  bool_decide (drop (length s - length suffix)%nat s = suffix).

(** [s.startswith(prefix)]. *)
Definition startswith (s prefix : str) : bool :=
  bool_decide (take (length prefix) s = prefix).

(** The code points [str.strip()] removes: those for which
    [str.isspace()] holds. *)
Definition isspace (c : N) : bool :=
  ((9 <=? c) && (c <=? 13) || (28 <=? c) && (c <=? 32)
   || (c =? 133) || (c =? 160) || (c =? 5760)
   || (8192 <=? c) && (c <=? 8202)
   || (c =? 8232) || (c =? 8233) || (c =? 8239) || (c =? 8287)
   || (c =? 12288))%N.

Fixpoint lstrip (s : str) : str :=
  match s with
  | c :: s' => if isspace c then lstrip s' else s
  | [] => []
  end.

Definition rstrip (s : str) : str := reverse (lstrip (reverse s)).

(** [s.strip()]. *)
Definition strip (s : str) : str := rstrip (lstrip s).

(** Truth value of a string: non-empty. *)
Definition truthy (s : str) : bool :=
  match s with [] => false | _ => true end.

(** [os.path.join(a, b)] of [posixpath]. *)
Definition join (a b : str) : str :=
  if startswith b (lit "/") then b
  else if bool_decide (a = []) || endswith a (lit "/") then a ++ b
  else a ++ lit "/" ++ b.

Definition newline : str := [10%N].

(** Lines written by [print]. *)
Abbreviation stdout := (list str).

(** ** The environment: files and what PyPDF2 reads from them *)

(** A [PyPDF2.PdfReader] on an opened file: the info dictionary
    ([None] when the file has none) and, for each page, what
    [extract_text()] returns or raises. *)
Record PdfReader := {
  pdf_metadata : option (gmap string str);
  pdf_pages : list (result str)
}.

(** A snapshot of the file system.  [walk] lists the [(root, dirs, files)]
    triples of [os.walk]; [read_text path encoding] is
    [open(path, "r", encoding=encoding).read()]; [open_pdf path] is
    [PyPDF2.PdfReader(open(path, "rb"))]. *)
Record filesystem := {
  isdir : str -> bool;
  isfile : str -> bool;
  walk : str -> list (str * list str * list str);
  read_text : str -> str -> result str;
  open_pdf : str -> result PdfReader
}.

(** [for x in xs: body], threading the object and the output, and
    stopping at the first exception. *)
Fixpoint for_each {A S : Type} (body : A -> S -> stdout -> result unit * S * stdout)
    (xs : list A) (self : S) (out : stdout) : result unit * S * stdout :=
  match xs with
  | [] => (inr (), self, out)
  | x :: rest =>
      match body x self out with
      | (inl e, self', out') => (inl e, self', out')
      | (inr _, self', out') => for_each body rest self' out'
      end
  end.

(** ** TextFileLoader *)

Module TextFileLoader.

Record t := {
  documents : list str;
  path : str;
  encoding : str
}.

Definition init (path encoding : str) : t :=
  {| documents := []; path := path; encoding := encoding |}.

(** [self.documents.extend(docs)]; [append] is the case of one element. *)
Definition extend (self : t) (docs : list str) : t :=
  {| documents := documents self ++ docs; path := path self; encoding := encoding self |}.

Section Methods.
Variable fs : filesystem.

Definition load_file (self : t) (out : stdout) : result unit * t * stdout :=
  match read_text fs (path self) (encoding self) with
  | inl e => (inl e, self, out)
  | inr content => (inr (), extend self [content], out)
  end.

(** The page loop of [load_pdf_file], from the accumulated
    [text_content]. *)
Fixpoint extract_pages (pages : list (result str)) (text_content : str) : result str :=
  match pages with
  | [] => inr text_content
  | inl e :: _ => inl e
  | inr page_text :: rest => extract_pages rest (text_content ++ page_text ++ newline)
  end.

(** The body of the [try] of [load_pdf_file], up to the test. *)
Definition read_pdf_text (self : t) : result str :=
  match open_pdf fs (path self) with
  | inl e => inl e
  | inr pdf_reader => extract_pages (pdf_pages pdf_reader) []
  end.

Definition load_pdf_file (self : t) (out : stdout) : result unit * t * stdout :=
  match read_pdf_text self with
  | inr text_content =>
      if truthy (strip text_content)
      then (inr (), extend self [text_content], out)
      else (inr (), self,
            out ++ [lit "Warning: No text content extracted from " ++ path self])
  | inl e =>
      (inl e, self,
       out ++ [lit "Error reading PDF file " ++ path self ++ lit ": " ++ exc_message e])
  end.

(** The body of the inner loop of [load_directory]. *)
Definition load_directory_file (root : str) (file : str) (self : t) (out : stdout)
    : result unit * t * stdout :=
  let file_path := join root file in
  if endswith file (lit ".txt") then
    match read_text fs file_path (encoding self) with
    | inl e => (inl e, self, out)
    | inr content => (inr (), extend self [content], out)
    end
  else if endswith file (lit ".pdf") then
    let pdf_loader := init file_path (encoding self) in
    match load_pdf_file pdf_loader out with
    | (inl e, _, out') => (inl e, self, out')
    | (inr _, pdf_loader', out') => (inr (), extend self (documents pdf_loader'), out')
    end
  else (inr (), self, out).

(** The outer loop of [load_directory], over the triples of [os.walk]. *)
Definition load_directory_walk (entries : list (str * list str * list str))
    (self : t) (out : stdout) : result unit * t * stdout :=
  for_each (fun '(root, _, files) => for_each (load_directory_file root) files)
           entries self out.

Definition load_directory (self : t) (out : stdout) : result unit * t * stdout :=
  load_directory_walk (walk fs (path self)) self out.

Definition load (self : t) (out : stdout) : result unit * t * stdout :=
  if isdir fs (path self) then load_directory self out
  else if isfile fs (path self) then
    if endswith (path self) (lit ".txt") then load_file self out
    else if endswith (path self) (lit ".pdf") then load_pdf_file self out
    else (inl (ValueError "Provided file is neither a .txt nor .pdf file."), self, out)
  else (inl (ValueError "Provided path is neither a valid directory nor a supported file."),
        self, out).

(** [load_documents] returns [self.documents] itself; the value it has
    at the return is what the result holds. *)
Definition load_documents (self : t) (out : stdout) : result (list str) * t * stdout :=
  match load self out with
  | (inl e, self', out') => (inl e, self', out')
  | (inr _, self', out') => (inr (documents self'), self', out')
  end.

End Methods.
End TextFileLoader.

(** ** PDFFileLoader *)

Module PDFFileLoader.

(** The dictionary built for each retained page; its keys are fixed. *)
Record PageMetadata := {
  source_file : str;
  page_number : Z;
  total_pages : Z;
  document_title : str;
  document_author : str;
  document_subject : str;
  document_creator : str;
  document_producer : str;
  creation_date : str;
  modification_date : str
}.

Record t := {
  documents : list str;
  metadata : list PageMetadata;
  path : str
}.

Definition init (path : str) : t :=
  {| documents := []; metadata := []; path := path |}.

(** [doc_info.get(key, dflt)]. *)
Definition get (doc_info : gmap string str) (key : string) (dflt : str) : str :=
  default dflt (doc_info !! key).

Definition page_metadata (self : t) (total : Z) (doc_info : gmap string str)
    (page_num : Z) : PageMetadata :=
  {| source_file := path self;
     page_number := page_num + 1;
     total_pages := total;
     document_title := get doc_info "/Title" (lit "Unknown");
     document_author := get doc_info "/Author" (lit "Unknown");
     document_subject := get doc_info "/Subject" [];
     document_creator := get doc_info "/Creator" [];
     document_producer := get doc_info "/Producer" [];
     creation_date := get doc_info "/CreationDate" [];
     modification_date := get doc_info "/ModDate" [] |}.

(** [self.documents.append(text); self.metadata.append(meta)]. *)
Definition append_page (self : t) (text : str) (meta : PageMetadata) : t :=
  {| documents := documents self ++ [text];
     metadata := metadata self ++ [meta];
     path := path self |}.

(** The page loop of [load_pdf_with_metadata]: [rest] holds the pages
    from index [page_num] on.  Building the dictionary calls [get] on
    [doc_info], which raises when the reader has no info dictionary. *)
Fixpoint load_pages (total : Z) (doc_info : option (gmap string str))
    (rest : list (result str)) (page_num : Z) (self : t) : result unit * t :=
  match rest with
  | [] => (inr (), self)
  | inl e :: _ => (inl e, self)
  | inr text_content :: rest' =>
      if truthy (strip text_content) then
        match doc_info with
        | None => (inl (AttributeError "'NoneType' object has no attribute 'get'"), self)
        | Some info =>
            load_pages total doc_info rest' (page_num + 1)
              (append_page self text_content (page_metadata self total info page_num))
        end
      else load_pages total doc_info rest' (page_num + 1) self
  end.

Section Methods.
Variable fs : filesystem.

Definition load_pdf_with_metadata (self : t) (out : stdout) : result unit * t * stdout :=
  let failed e self' :=
    (inl e, self',
     out ++ [lit "Error reading PDF file " ++ path self ++ lit ": " ++ exc_message e]) in
  match open_pdf fs (path self) with
  | inl e => failed e self
  | inr pdf_reader =>
      match load_pages (len (pdf_pages pdf_reader)) (pdf_metadata pdf_reader)
                       (pdf_pages pdf_reader) 0 self with
      | (inl e, self') => failed e self'
      | (inr _, self') => (inr (), self', out)
      end
  end.

Definition load_documents (self : t) (out : stdout)
    : result (list str * list PageMetadata) * t * stdout :=
  match load_pdf_with_metadata self out with
  | (inl e, self', out') => (inl e, self', out')
  | (inr _, self', out') => (inr (documents self', metadata self'), self', out')
  end.

End Methods.
End PDFFileLoader.

(** ** CharacterTextSplitter *)

Module CharacterTextSplitter.

Record t := {
  chunk_size : Z;
  chunk_overlap : Z
}.

(** [CharacterTextSplitter(chunk_size, chunk_overlap)]: the constructor
    asserts [chunk_size > chunk_overlap]. *)
Definition init (chunk_size chunk_overlap : Z) : result t :=
  if chunk_overlap <? chunk_size
  then inr {| chunk_size := chunk_size; chunk_overlap := chunk_overlap |}
  else inl (AssertionError "Chunk size must be greater than chunk overlap").

(** The body of the loop of [split]: one [chunks.append]. *)
Definition split_step (self : t) (text : str) (chunks : list str) (i : Z) : list str :=
  chunks ++ [slice text i (i + chunk_size self)].

Definition split (self : t) (text : str) : result (list str) :=
  match range 0 (len text) (chunk_size self - chunk_overlap self) with
  | inl e => inl e
  | inr idxs => inr (fold_left (split_step self text) idxs [])
  end.

(** The loop of [split_texts], from the accumulated [chunks]. *)
Fixpoint split_texts_loop (self : t) (texts : list str) (chunks : list str)
    : result (list str) :=
  match texts with
  | [] => inr chunks
  | text :: rest =>
      match split self text with
      | inl e => inl e
      | inr cs => split_texts_loop self rest (chunks ++ cs)
      end
  end.

Definition split_texts (self : t) (texts : list str) : result (list str) :=
  split_texts_loop self texts [].

End CharacterTextSplitter.

Import CharacterTextSplitter.

(** ** The operations of the spec's programmatic surface *)

(** [split(text, chunk_size, chunk_overlap)]: construct a splitter, then
    call [split]. *)
Definition split_with (s : str) (n k : Z) : result (list str) :=
  match init n k with
  | inl e => inl e
  | inr sp => split sp s
  end.

(** [split_many(texts, chunk_size, chunk_overlap)]. *)
Definition split_many_with (texts : list str) (n k : Z) : result (list str) :=
  match init n k with
  | inl e => inl e
  | inr sp => split_texts sp texts
  end.

(** [ceil(a / b)] on integers, as [-(-a // b)]. *)
Definition ceil_div (a b : Z) : Z := - ((- a) / b).

(** The count the spec gives: [ceil(max(len(s) - k, 0) / (n - k))]. *)
Definition spec_chunk_count (s : str) (n k : Z) : Z :=
  ceil_div (Z.max (len s - k) 0) (n - k).

(** The count the loop produces: [ceil(len(s) / (n - k))]. *)
Definition chunk_count (s : str) (n k : Z) : Z :=
  ceil_div (len s) (n - k).

(** A chunk stripped of its first [k] characters. *)
Definition strip_overlap (k : Z) (chunk : str) : str := drop (Z.to_nat k) chunk.

(** The first chunk followed by every later chunk without its first [k]
    characters. *)
Definition reconstruct (k : Z) (chunks : list str) : str :=
  match chunks with
  | [] => []
  | first :: later => first ++ concat (map (strip_overlap k) later)
  end.

(** The same with the later chunks cut as [chunk[k:]]. *)
Definition reconstruct_sliced (k : Z) (chunks : list str) : str :=
  match chunks with
  | [] => []
  | first :: later => first ++ concat (map (fun c => slice c k (len c)) later)
  end.

(** [c] lies inside [text] as a contiguous run. *)
Definition substring_of (c text : str) : Prop :=
  exists before after, text = before ++ c ++ after.

(** Page texts joined with newline separators: ["\n".join(texts)]. *)
Fixpoint join_lines (texts : list str) : str :=
  match texts with
  | [] => []
  | [t] => t
  | t :: rest => t ++ newline ++ join_lines rest
  end.

(** A string with nothing left after [strip()]. *)
Definition blank (s : str) : Prop := strip s = [].

(** The files of one directory that [load_directory] reads. *)
Definition supported (file : str) : bool :=
  endswith file (lit ".txt") || endswith file (lit ".pdf").

(** The pages the metadata-aware loader retains, each with its index:
    the pages whose text is not empty after [strip()]. *)
Fixpoint retained_pages (page_num : Z) (texts : list str) : list (Z * str) :=
  match texts with
  | [] => []
  | text :: rest =>
      if truthy (strip text)
      then (page_num, text) :: retained_pages (page_num + 1) rest
      else retained_pages (page_num + 1) rest
  end.

(** One triple of [os.walk] without the files [load_directory] skips. *)
Definition supported_only (entry : str * list str * list str) : str * list str * list str :=
  let '(root, dirs, files) := entry in (root, dirs, List.filter supported files).

(** A method of [TextFileLoader] that only appends: what it returns, the
    documents it adds and the lines it prints are fixed by the path and
    the encoding, whatever [documents] and the output hold before. *)
Definition appends
    (method : TextFileLoader.t -> stdout -> result unit * TextFileLoader.t * stdout)
    : Prop :=
  forall path encoding : str,
  exists (r : result unit) (new : list str) (printed : stdout),
  forall (docs : list str) (out : stdout),
    method {| TextFileLoader.documents := docs;
              TextFileLoader.path := path;
              TextFileLoader.encoding := encoding |} out
    = (r,
       {| TextFileLoader.documents := docs ++ new;
          TextFileLoader.path := path;
          TextFileLoader.encoding := encoding |},
       out ++ printed).

(** ** A sample tree, for the examples *)

Definition world_pdf : PdfReader :=
  {| pdf_metadata := Some {[ "/Title" := lit "World" ]};
     pdf_pages := [inr (lit "world"); inr (lit "  "); inr (lit "again")] |}.

Definition empty_pdf : PdfReader :=
  {| pdf_metadata := None; pdf_pages := [inr (lit " "); inr []] |}.

Definition no_such_file (p : str) : exception := Raise "FileNotFoundError" p.

Definition sample_fs : filesystem :=
  {| isdir p := bool_decide (p = lit "data");
     isfile p := bool_decide (p ∈ [lit "data/a.txt"; lit "data/notes.md";
                                   lit "data/b.pdf"; lit "data/sub/empty.pdf"]);
     walk p :=
       if bool_decide (p = lit "data")
       then [(lit "data", [lit "sub"], [lit "a.txt"; lit "notes.md"; lit "b.pdf"]);
             (lit "data/sub", [], [lit "empty.pdf"])]
       else [];
     read_text p enc :=
       if bool_decide (p = lit "data/a.txt") then inr (lit "hello")
       else inl (no_such_file p);
     open_pdf p :=
       if bool_decide (p = lit "data/b.pdf") then inr world_pdf
       else if bool_decide (p = lit "data/sub/empty.pdf") then inr empty_pdf
       else inl (no_such_file p) |}.

(** The documents that one file of a directory adds when it is met by a
    loader that has loaded nothing yet. *)
Definition file_documents (fs : filesystem) (encoding root file : str) : list str :=
  TextFileLoader.documents
    (TextFileLoader.load_directory_file fs root file
       (TextFileLoader.init root encoding) []).1.2.

(** The documents of the files of a walk, in the order of the walk. *)
Definition walk_documents (fs : filesystem) (encoding : str)
    (entries : list (str * list str * list str)) : list str :=
  concat (map (fun '(root, _, files) => concat (map (file_documents fs encoding root) files))
              entries).

(** ** The demonstration run as a script *)

Definition IndexError (msg : string) : exception := Raise "IndexError" (lit msg).

(** [l[i]] on a list: a negative index counts from the end. *)
Definition getitem {A} (l : list A) (i : Z) : result A :=
  let j := if i <? 0 then i + len l else i in
  match (if j <? 0 then None else l !! Z.to_nat j) with
  | Some x => inr x
  | None => inl (IndexError "list index out of range")
  end.

(** [str(z)] for an integer. *)
Definition str_of_int (z : Z) : str := lit (NilZero.string_of_int (Z.to_int z)).

Definition dashes : str := lit "--------".

(** The block under [if __name__ == "__main__"]: what it raises, if
    anything, and what it has printed by then. *)
Definition main (fs : filesystem) (out : stdout) : result unit * stdout :=
  let loader := TextFileLoader.init (lit "data/KingLear.txt") (lit "utf-8") in
  match TextFileLoader.load fs loader out with
  | (inl e, _, out) => (inl e, out)
  | (inr _, loader, out) =>
  match CharacterTextSplitter.init 1000 200 with
  | inl e => (inl e, out)
  | inr splitter =>
  match split_texts splitter (TextFileLoader.documents loader) with
  | inl e => (inl e, out)
  | inr chunks =>
  let out := out ++ [str_of_int (len chunks)] in
  match getitem chunks 0 with
  | inl e => (inl e, out)
  | inr chunk =>
  let out := out ++ [chunk; dashes] in
  match getitem chunks 1 with
  | inl e => (inl e, out)
  | inr chunk =>
  let out := out ++ [chunk; dashes] in
  match getitem chunks (-2) with
  | inl e => (inl e, out)
  | inr chunk =>
  let out := out ++ [chunk; dashes] in
  match getitem chunks (-1) with
  | inl e => (inl e, out)
  | inr chunk => (inr (), out ++ [chunk])
  end end end end end end end.

(** A tree with the file the demonstration reads. *)
Definition play_fs (content : str) : filesystem :=
  {| isdir p := false;
     isfile p := bool_decide (p = lit "data/KingLear.txt");
     walk p := [];
     read_text p enc :=
       if bool_decide (p = lit "data/KingLear.txt") then inr content
       else inl (no_such_file p);
     open_pdf p := inl (no_such_file p) |}.

(** A directory without a text or PDF file. *)
Definition notes_fs : filesystem :=
  {| isdir p := bool_decide (p = lit "docs");
     isfile p := bool_decide (p ∈ [lit "docs/README.md"; lit "docs/fig.png"]);
     walk p :=
       if bool_decide (p = lit "docs")
       then [(lit "docs", [], [lit "README.md"; lit "fig.png"])]
       else [];
     read_text p enc := inl (no_such_file p);
     open_pdf p := inl (no_such_file p) |}.

(** Two PDFs that do not load: one without an info dictionary, one with a
    page that cannot be extracted. *)
Definition scan_pdf : PdfReader :=
  {| pdf_metadata := None;
     pdf_pages := [inr (lit " "); inr (lit "page two")] |}.

Definition torn_pdf : PdfReader :=
  {| pdf_metadata := Some ∅;
     pdf_pages := [inr (lit "intro"); inr [];
                   inl (Raise "PdfReadError" (lit "bad page"));
                   inr (lit "never read")] |}.

Definition scans_fs : filesystem :=
  {| isdir p := false;
     isfile p := bool_decide (p ∈ [lit "scan.pdf"; lit "torn.pdf"]);
     walk p := [];
     read_text p enc := inl (no_such_file p);
     open_pdf p :=
       if bool_decide (p = lit "scan.pdf") then inr scan_pdf
       else if bool_decide (p = lit "torn.pdf") then inr torn_pdf
       else inl (no_such_file p) |}.

(** * Properties *)

(** ** Integer arithmetic *)

(** [ceil_div a b] is the least [q] with [a <= q * b]. *)
Lemma ceil_div_spec (a b : Z) :
  0 < b -> (ceil_div a b - 1) * b < a <= ceil_div a b * b.
Proof.
  intros Hb. unfold ceil_div.
  pose proof (Z.div_mod (- a) b ltac:(lia)) as Hdm.
  pose proof (Z.mod_pos_bound (- a) b Hb) as Hm.
  nia.
Qed.

Lemma ceil_div_unique (a b q : Z) :
  0 < b -> (q - 1) * b < a <= q * b -> ceil_div a b = q.
Proof.
  intros Hb Hq. pose proof (ceil_div_spec a b Hb) as Hc. nia.
Qed.

Lemma range_length_ceil (stop step : Z) :
  0 <= stop -> 0 < step -> range_length 0 stop step = ceil_div stop step.
Proof.
  intros Hs Hd. unfold range_length.
  destruct (Z.ltb_spec 0 step) as [_|?]; [|lia].
  symmetry. apply ceil_div_unique; [done|].
  destruct (Z.ltb_spec 0 stop) as [Hpos|Hle].
  - pose proof (Z.div_mod (stop - 0 - 1) step ltac:(lia)) as Hdm.
    pose proof (Z.mod_pos_bound (stop - 0 - 1) step Hd) as Hm.
    nia.
  - assert (stop = 0) as -> by lia. lia.
Qed.

(** ** Slices *)

Lemma len_nonneg {A} (s : list A) : 0 <= len s.
Proof. unfold len. lia. Qed.

Lemma take_clip {A} (a : nat) (l : list A) :
  take (a `min` length l) l = take a l.
Proof.
  destruct (Nat.le_gt_cases a (length l)) as [Hle|Hgt].
  - by rewrite Nat.min_l.
  - rewrite Nat.min_r by lia. by rewrite !take_ge by lia.
Qed.

(** A slice with non-negative bounds [i <= j] is [j - i] items from
    offset [i]. *)
Lemma slice_take_drop {A} (s : list A) (i n : Z) :
  0 <= i -> 0 <= n ->
  slice s i (i + n) = take (Z.to_nat n) (drop (Z.to_nat i) s).
Proof.
  intros Hi Hn. unfold slice, slice_index.
  destruct (Z.ltb_spec i 0) as [?|_]; [lia|].
  destruct (Z.ltb_spec (i + n) 0) as [?|_]; [lia|].
  pose proof (len_nonneg s) as HL. unfold len in *.
  destruct (Z.le_gt_cases i (Z.of_nat (length s))) as [Hle|Hgt].
  - rewrite (Z.min_l i) by lia.
    rewrite <- (take_clip (Z.to_nat n)). f_equal.
    rewrite length_drop. lia.
  - rewrite !drop_ge by lia. by rewrite !take_nil.
Qed.

(** Whatever the bounds, a slice is a contiguous run of the string. *)
Lemma slice_substring (s : str) (i j : Z) : substring_of (slice s i j) s.
Proof.
  unfold slice. cbv zeta.
  set (lo := Z.to_nat (slice_index (len s) i)).
  set (w := Z.to_nat (slice_index (len s) j - slice_index (len s) i)).
  exists (take lo s), (drop w (drop lo s)).
  by rewrite (take_drop w), (take_drop lo).
Qed.

(** ** The splitter, in closed form *)

Section Splitter.
Variable self : CharacterTextSplitter.t.

(** The loop of [split] appends one slice per index. *)
Lemma split_loop_map (text : str) (idxs : list Z) (chunks : list str) :
  fold_left (split_step self text) idxs chunks
  = chunks ++ map (fun i => slice text i (i + chunk_size self)) idxs.
Proof.
  revert chunks. induction idxs as [|i idxs IH]; intros chunks; simpl.
  - by rewrite app_nil_r.
  - rewrite IH. unfold split_step. by rewrite <- app_assoc.
Qed.

(** With [chunk_size > chunk_overlap] the call returns, and the chunk of
    index [i] is the slice that starts at [i * (chunk_size - chunk_overlap)]. *)
Lemma split_closed (text : str) :
  chunk_overlap self < chunk_size self ->
  split self text
  = inr (map (fun i : nat =>
                slice text (Z.of_nat i * (chunk_size self - chunk_overlap self))
                           (Z.of_nat i * (chunk_size self - chunk_overlap self)
                            + chunk_size self))
             (seq 0 (Z.to_nat (chunk_count text (chunk_size self) (chunk_overlap self))))).
Proof.
  intros Hnk. unfold split, range.
  destruct (Z.eqb_spec (chunk_size self - chunk_overlap self) 0) as [?|_]; [lia|].
  rewrite split_loop_map. simpl. rewrite map_map.
  unfold chunk_count. rewrite range_length_ceil by (pose proof (len_nonneg text); lia).
  done.
Qed.
End Splitter.

Lemma split_with_closed (s : str) (n k : Z) :
  k < n ->
  split_with s n k
  = inr (map (fun i : nat => slice s (Z.of_nat i * (n - k)) (Z.of_nat i * (n - k) + n))
             (seq 0 (Z.to_nat (chunk_count s n k)))).
Proof.
  intros Hnk. unfold split_with, init.
  destruct (Z.ltb_spec k n) as [_|?]; [|lia].
  by rewrite split_closed.
Qed.

Lemma chunk_count_nonneg (s : str) (n k : Z) : k < n -> 0 <= chunk_count s n k.
Proof.
  intros Hnk. unfold chunk_count.
  pose proof (ceil_div_spec (len s) (n - k) ltac:(lia)) as Hc.
  pose proof (len_nonneg s). nia.
Qed.

Lemma chunk_count_pos (s : str) (n k : Z) : k < n -> s <> [] -> 1 <= chunk_count s n k.
Proof.
  intros Hnk Hs. unfold chunk_count.
  pose proof (ceil_div_spec (len s) (n - k) ltac:(lia)) as Hc.
  assert (0 < len s) by (unfold len; destruct s; [done|simpl; lia]). nia.
Qed.

(** ** Number of chunks *)

(** C1, as the spec states it, fails on the spec's own example: ten
    characters with [chunk_size = 4] and [chunk_overlap = 1] give four
    chunks, and [ceil(max(10 - 1, 0) / (4 - 1))] is three. *)
Lemma split_count_not_spec_formula :
  exists chunks,
    split_with (lit "abcdefghij") 4 1 = inr chunks
    /\ len chunks = 4
    /\ spec_chunk_count (lit "abcdefghij") 4 1 = 3
    /\ len chunks <> spec_chunk_count (lit "abcdefghij") 4 1.
Proof. eexists. repeat split; try reflexivity. by vm_compute. Qed.

(** C1 (amended): for every string [s] and every [n > k], [split] returns
    [ceil(len(s) / (n - k))] chunks: the overlap is not subtracted from the
    length.  For the empty string that is no chunk at all. *)
Theorem split_chunk_count (s : str) (n k : Z) :
  k < n ->
  exists chunks,
    split_with s n k = inr chunks
    /\ len chunks = chunk_count s n k
    /\ (s = [] -> chunks = []).
Proof.
  intros Hnk. eexists. split; [by apply split_with_closed|].
  pose proof (chunk_count_nonneg s n k Hnk) as Hc. split.
  - unfold len at 1. rewrite length_map, length_seq. lia.
  - intros ->. by vm_compute.
Qed.

Lemma split_chunk_count_witness :
  1 < 4 /\
  exists chunks,
    split_with (lit "abcdefghij") 4 1 = inr chunks
    /\ len chunks = chunk_count (lit "abcdefghij") 4 1
    /\ (lit "abcdefghij" = [] -> chunks = []).
Proof. split; [lia | apply (split_chunk_count (lit "abcdefghij") 4 1); lia]. Defined.

(** ** Short strings *)

(** C2, as the spec states it, fails when the string is longer than the
    advance: four characters with [chunk_size = 4] and [chunk_overlap = 1]
    give the string and then its last character again. *)
Lemma short_string_two_chunks :
  lit "abcd" <> [] /\ 1 < 4 /\ len (lit "abcd") <= 4
  /\ exists chunks,
       split_with (lit "abcd") 4 1 = inr chunks
       /\ chunks = [lit "abcd"; lit "d"]
       /\ length chunks <> 1%nat
       /\ chunks <> [lit "abcd"].
Proof.
  split; [done|]. split; [lia|]. split; [by vm_compute|].
  eexists. split; [reflexivity|]. split; [reflexivity|]. split; by vm_compute.
Qed.

(** C2 (amended): for a non-empty [s] with [len(s) <= n] and [n > k], the
    first chunk of [split] equals [s], and it is the only chunk exactly
    when [len(s) <= n - k]. *)
Theorem split_short (s : str) (n k : Z) :
  s <> [] -> k < n -> len s <= n ->
  exists later,
    split_with s n k = inr (s :: later)
    /\ (later = [] <-> len s <= n - k).
Proof.
  intros Hs Hnk Hlen. rewrite split_with_closed by done.
  pose proof (chunk_count_pos s n k Hnk Hs) as Hpos.
  destruct (Z.to_nat (chunk_count s n k)) as [|m] eqn:Hm; [lia|].
  simpl. eexists. split.
  - f_equal. f_equal.
    change (0 * (n - k) + n) with (0 + n).
    rewrite slice_take_drop by (pose proof (len_nonneg s); lia).
    simpl. apply take_ge. unfold len in Hlen. lia.
  - pose proof (ceil_div_spec (len s) (n - k) ltac:(lia)) as Hc.
    fold (chunk_count s n k) in Hc. destruct m as [|m]; simpl; split.
    + intros _. assert (chunk_count s n k = 1) as Heq by lia. rewrite Heq in Hc. lia.
    + done.
    + done.
    + intros Hle. assert (2 <= chunk_count s n k) by lia. nia.
Qed.

Lemma split_short_witness :
  lit "abc" <> [] /\ 1 < 4 /\ len (lit "abc") <= 4 /\
  exists later,
    split_with (lit "abc") 4 1 = inr (lit "abc" :: later)
    /\ (later = [] <-> len (lit "abc") <= 4 - 1).
Proof.
  assert (len (lit "abc") <= 4) as Hlen by (by vm_compute).
  split; [done|]. split; [lia|]. split; [exact Hlen|].
  apply (split_short (lit "abc") 4 1); [done | lia | exact Hlen].
Defined.

(** ** The worked example *)

(** C4: [split("abcdefghij", 4, 1)] is [["abcd", "defg", "ghij", "j"]],
    the slices of width 4 at the offsets 0, 3, 6, 9 of the range. *)
Theorem split_abcdefghij :
  range 0 (len (lit "abcdefghij")) (4 - 1) = inr [0; 3; 6; 9]
  /\ split_with (lit "abcdefghij") 4 1
     = inr (map (fun i => slice (lit "abcdefghij") i (i + 4)) [0; 3; 6; 9])
  /\ split_with (lit "abcdefghij") 4 1
     = inr [lit "abcd"; lit "defg"; lit "ghij"; lit "j"].
Proof. repeat split; reflexivity. Qed.

(** ** Construction *)

(** C6: the constructor returns a splitter exactly when
    [chunk_size > chunk_overlap]; when [chunk_overlap >= chunk_size] it
    raises the [AssertionError] of its [assert], the configuration error
    of the spec, and returns no splitter. *)
Theorem init_succeeds_iff (n k : Z) :
  ((exists sp, init n k = inr sp) <-> k < n)
  /\ (k < n -> init n k = inr {| chunk_size := n; chunk_overlap := k |})
  /\ (n <= k ->
      init n k = inl (AssertionError "Chunk size must be greater than chunk overlap")).
Proof.
  unfold init. destruct (Z.ltb_spec k n) as [Hlt|Hge].
  - repeat split; [done | by eexists | lia].
  - repeat split; [by intros [sp ?] | lia | lia].
Qed.

Lemma init_succeeds_iff_witness :
  init 4 1 = inr {| chunk_size := 4; chunk_overlap := 1 |}
  /\ init 200 200
     = inl (AssertionError "Chunk size must be greater than chunk overlap").
Proof.
  split.
  - apply (proj1 (proj2 (init_succeeds_iff 4 1))). lia.
  - apply (proj2 (proj2 (init_succeeds_iff 200 200))). lia.
Defined.

(** ** Tiling *)

(** Consecutive windows of width [d], taken after a prefix of length [a],
    extend that prefix. *)
Lemma take_windows {A} (s : list A) (a d m : nat) :
  take a s ++ concat (map (fun i : nat => take d (drop (a + i * d) s)) (seq 0 m))
  = take (a + m * d) s.
Proof.
  induction m as [|m IH].
  - simpl. by rewrite app_nil_r, Nat.add_0_r.
  - rewrite seq_S, map_app, concat_app, app_assoc, IH. simpl.
    rewrite app_nil_r, take_take_drop. f_equal. lia.
Qed.

(** A chunk at a non-negative offset, with a non-negative size, is a
    window of the string. *)
Lemma chunk_window (s : str) (n d : Z) (i : nat) :
  0 <= n -> 0 <= d ->
  slice s (Z.of_nat i * d) (Z.of_nat i * d + n)
  = take (Z.to_nat n) (drop (i * Z.to_nat d) s).
Proof.
  intros Hn Hd. rewrite slice_take_drop by nia.
  do 2 f_equal. nia.
Qed.

(** Whatever its size, a chunk whose offset lies in the string starts
    there. *)
Lemma chunk_prefix (s : str) (i j : Z) :
  0 <= i < len s -> slice s i j `prefix_of` drop (Z.to_nat i) s.
Proof.
  intros Hi. unfold slice, slice_index.
  destruct (Z.ltb_spec i 0) as [?|_]; [lia|].
  rewrite (Z.min_l i) by lia. apply prefix_take.
Qed.

(** C3, as the spec states it, fails for a negative overlap, which the
    constructor accepts: with [chunk_size = 2] and [chunk_overlap = -1] the
    chunks of ["abcdef"] are ["ab"] and ["de"], and neither reading of the
    stripping gives the string back. *)
Lemma split_negative_overlap_gap :
  -1 < 2
  /\ split_with (lit "abcdef") 2 (-1) = inr [lit "ab"; lit "de"]
  /\ reconstruct (-1) [lit "ab"; lit "de"] <> lit "abcdef"
  /\ reconstruct_sliced (-1) [lit "ab"; lit "de"] <> lit "abcdef".
Proof.
  split; [lia|]. split; [reflexivity|]. split; by vm_compute.
Qed.

(** C3 (amended): for every string [s] and every [n > k], chunk [i] of
    [split] is the slice of [s] that starts at offset [i * (n - k)], an
    offset inside [s]; and when moreover [k >= 0], the first chunk followed
    by the later chunks without their first [k] characters is [s]. *)
Theorem split_tiles (s : str) (n k : Z) :
  k < n ->
  exists chunks,
    split_with s n k = inr chunks
    /\ (forall (i : nat) (c : str), chunks !! i = Some c ->
          0 <= Z.of_nat i * (n - k) < len s
          /\ c = slice s (Z.of_nat i * (n - k)) (Z.of_nat i * (n - k) + n)
          /\ c `prefix_of` drop (Z.to_nat (Z.of_nat i * (n - k))) s)
    /\ (0 <= k -> reconstruct k chunks = s).
Proof.
  intros Hnk. eexists. split; [by apply split_with_closed|].
  pose proof (ceil_div_spec (len s) (n - k) ltac:(lia)) as Hc.
  fold (chunk_count s n k) in Hc.
  pose proof (chunk_count_nonneg s n k Hnk) as Hm0.
  split.
  - intros i c Hi. rewrite list_lookup_fmap in Hi.
    destruct (seq 0 _ !! i) as [j|] eqn:Hj; [|done].
    apply lookup_seq in Hj as [-> Hlt]. simpl in Hi. injection Hi as <-.
    assert (0 <= Z.of_nat i * (n - k) < len s) as Hoff by nia.
    split; [done|]. split; [done|]. by apply chunk_prefix.
  - intros Hk. destruct (Z.to_nat (chunk_count s n k)) as [|m] eqn:Hm.
    + simpl. assert (len s <= 0) as Hs by nia.
      unfold len in Hs. destruct s; [done|simpl in Hs; lia].
    + simpl. rewrite <- fmap_S_seq. change (S <$> seq 0 m) with (map S (seq 0 m)).
      rewrite !map_map.
      change (0 * (n - k) + n) with (0 + n).
      rewrite slice_take_drop by lia. simpl drop.
      rewrite (map_ext _ (fun i : nat =>
                 take (Z.to_nat (n - k)) (drop (Z.to_nat n + i * Z.to_nat (n - k)) s))).
      * rewrite take_windows. apply take_ge. unfold len in Hc. nia.
      * intros i. unfold strip_overlap.
        rewrite chunk_window by lia.
        replace (Z.to_nat n) with (Z.to_nat k + Z.to_nat (n - k))%nat by lia.
        rewrite <- take_drop_commute, drop_drop. do 2 f_equal. lia.
Qed.

Lemma split_tiles_witness :
  1 < 4 /\ 0 <= 1 /\
  exists chunks,
    split_with (lit "abcdefghij") 4 1 = inr chunks
    /\ chunks !! 2%nat = Some (lit "ghij")
    /\ lit "ghij" `prefix_of` drop 6 (lit "abcdefghij")
    /\ reconstruct 1 chunks = lit "abcdefghij".
Proof.
  split; [lia|]. split; [lia|].
  destruct (split_tiles (lit "abcdefghij") 4 1 ltac:(lia)) as (chunks & Hs & Hi & Hr).
  exists chunks.
  assert (chunks !! 2%nat = Some (lit "ghij")) as H2.
  { change (split_with (lit "abcdefghij") 4 1)
      with (inr (B := list str) (A := exception)
                [lit "abcd"; lit "defg"; lit "ghij"; lit "j"]) in Hs.
    injection Hs as <-. reflexivity. }
  split; [exact Hs|]. split; [exact H2|]. split.
  - apply (Hi 2%nat _ H2).
  - apply Hr. lia.
Defined.

Example reconstruct_abcdefghij :
  reconstruct 1 [lit "abcd"; lit "defg"; lit "ghij"; lit "j"] = lit "abcdefghij".
Proof. reflexivity. Qed.

(** ** Several texts *)

(** The loop of [split_texts] appends the chunks of each text in turn. *)
Lemma split_texts_loop_concat (self : CharacterTextSplitter.t) (texts : list str)
    (per_text : list (list str)) (chunks : list str) :
  Forall2 (fun text cs => split self text = inr cs) texts per_text ->
  split_texts_loop self texts chunks = inr (chunks ++ concat per_text).
Proof.
  intros Hall. revert chunks.
  induction Hall as [|text cs texts per_text Hcs _ IH]; intros chunks; simpl.
  - by rewrite app_nil_r.
  - rewrite Hcs, IH. by rewrite app_assoc.
Qed.

(** Every chunk of a text is a contiguous run of that text. *)
Lemma split_substrings (self : CharacterTextSplitter.t) (text : str) (cs : list str) :
  split self text = inr cs -> Forall (fun c => substring_of c text) cs.
Proof.
  unfold split. destruct (range _ _ _) as [e|idxs]; [done|].
  intros [= <-]. rewrite split_loop_map. simpl.
  apply Forall_forall. intros c Hc.
  apply list_elem_of_In, in_map_iff in Hc as (i & <- & _).
  apply slice_substring.
Qed.

(** C5: for [n > k], [split_many] returns the chunks of each text, text
    after text in the order given; every chunk is a contiguous run of the
    one text it was cut from; and for two texts the result is
    [split(a) + split(b)]. *)
Theorem split_many_concat (n k : Z) :
  k < n ->
  (forall texts : list str,
     exists per_text : list (list str),
       Forall2 (fun text cs =>
                  split_with text n k = inr cs
                  /\ Forall (fun c => substring_of c text) cs) texts per_text
       /\ split_many_with texts n k = inr (concat per_text))
  /\ (forall a b : str,
       exists ca cb,
         split_with a n k = inr ca /\ split_with b n k = inr cb
         /\ split_many_with [a; b] n k = inr (ca ++ cb)).
Proof.
  intros Hnk.
  assert (forall texts : list str,
     exists per_text : list (list str),
       Forall2 (fun text cs =>
                  split_with text n k = inr cs
                  /\ Forall (fun c => substring_of c text) cs) texts per_text
       /\ split_many_with texts n k = inr (concat per_text)) as Hmany.
  { intros texts. unfold split_many_with, split_with, init.
    destruct (Z.ltb_spec k n) as [_|?]; [|lia].
    set (sp := {| chunk_size := n; chunk_overlap := k |}).
    assert (exists per_text, Forall2 (fun text cs => split sp text = inr cs) texts per_text)
      as [per_text Hper].
    { induction texts as [|text texts [per_text IH]]; [by exists []|].
      eexists (_ :: per_text). constructor; [|exact IH].
      apply split_closed. simpl. lia. }
    exists per_text. split.
    - eapply Forall2_impl; [exact Hper|]. intros text cs Hcs.
      split; [done|]. exact (split_substrings sp text cs Hcs).
    - unfold split_texts. by rewrite (split_texts_loop_concat _ _ per_text). }
  split; [exact Hmany|].
  intros a b. destruct (Hmany [a; b]) as (per_text & Hper & Hres).
  apply Forall2_cons_inv_l in Hper as (ca & rest & [Ha _] & Hper & ->).
  apply Forall2_cons_inv_l in Hper as (cb & rest' & [Hb _] & Hper & ->).
  apply Forall2_nil_inv_l in Hper as ->.
  exists ca, cb. simpl in Hres. rewrite app_nil_r in Hres. done.
Qed.

Lemma split_many_concat_witness :
  1 < 4 /\
  exists ca cb,
    split_with (lit "abcdefghij") 4 1 = inr ca
    /\ split_with (lit "xyz") 4 1 = inr cb
    /\ split_many_with [lit "abcdefghij"; lit "xyz"] 4 1 = inr (ca ++ cb).
Proof.
  split; [lia|].
  apply (proj2 (split_many_concat 4 1 ltac:(lia)) (lit "abcdefghij") (lit "xyz")).
Defined.

Example split_many_example :
  split_many_with [lit "abcdefghij"; lit "xyz"] 4 1
  = inr [lit "abcd"; lit "defg"; lit "ghij"; lit "j"; lit "xyz"].
Proof. reflexivity. Qed.

(** ** The loader on a sample tree *)

Example load_sample_directory :
  TextFileLoader.load_documents sample_fs
    (TextFileLoader.init (lit "data") (lit "utf-8")) []
  = (inr [lit "hello"; lit "world" ++ newline ++ lit "  " ++ newline ++ lit "again" ++ newline],
     TextFileLoader.extend (TextFileLoader.init (lit "data") (lit "utf-8"))
       [lit "hello"; lit "world" ++ newline ++ lit "  " ++ newline ++ lit "again" ++ newline],
     [lit "Warning: No text content extracted from data/sub/empty.pdf"]).
Proof. by vm_compute. Qed.

Example load_sample_pages :
  PDFFileLoader.load_documents sample_fs (PDFFileLoader.init (lit "data/b.pdf")) []
  = (inr ([lit "world"; lit "again"],
          [PDFFileLoader.page_metadata (PDFFileLoader.init (lit "data/b.pdf")) 3
             {[ "/Title" := lit "World" ]} 0;
           PDFFileLoader.page_metadata (PDFFileLoader.init (lit "data/b.pdf")) 3
             {[ "/Title" := lit "World" ]} 2]),
     {| PDFFileLoader.documents := [lit "world"; lit "again"];
        PDFFileLoader.metadata :=
          [PDFFileLoader.page_metadata (PDFFileLoader.init (lit "data/b.pdf")) 3
             {[ "/Title" := lit "World" ]} 0;
           PDFFileLoader.page_metadata (PDFFileLoader.init (lit "data/b.pdf")) 3
             {[ "/Title" := lit "World" ]} 2];
        PDFFileLoader.path := lit "data/b.pdf" |},
     []).
Proof. by vm_compute. Qed.

(** ** Blank strings *)

Lemma lstrip_nil (s : str) : lstrip s = [] <-> forallb isspace s = true.
Proof.
  induction s as [|c s IH]; simpl; [done|].
  destruct (isspace c); simpl; [exact IH | done].
Qed.

(** What [lstrip] leaves does not start with white space. *)
Lemma lstrip_head (s : str) (c : N) (r : str) :
  lstrip s = c :: r -> isspace c = false.
Proof.
  induction s as [|c' s IH]; simpl; [done|].
  destruct (isspace c') eqn:Hc'; [exact IH|].
  by intros [= <- _].
Qed.

Lemma forallb_isspace_app (a b : str) :
  forallb isspace (a ++ b) = forallb isspace a && forallb isspace b.
Proof. apply forallb_app. Qed.

(** A string is blank exactly when all of it is white space. *)
Lemma blank_iff (s : str) : blank s <-> forallb isspace s = true.
Proof.
  unfold blank, strip, rstrip. split.
  - intros Hs. apply lstrip_nil.
    destruct (lstrip s) as [|c r] eqn:Hl; [done|].
    apply (f_equal reverse) in Hs. rewrite reverse_involutive in Hs.
    change (reverse []) with (@nil N) in Hs. apply lstrip_nil in Hs.
    rewrite reverse_cons, forallb_isspace_app in Hs. simpl in Hs.
    rewrite (lstrip_head _ _ _ Hl) in Hs.
    by rewrite andb_false_r in Hs.
  - intros Hs. apply lstrip_nil in Hs. by rewrite Hs.
Qed.

Lemma truthy_strip (s : str) : truthy (strip s) = negb (forallb isspace s).
Proof.
  pose proof (blank_iff s) as Hb. unfold blank in Hb.
  destruct (strip s) as [|c r]; destruct (forallb isspace s); simpl; try done.
  - destruct Hb as [Hb _]. by specialize (Hb eq_refl).
  - destruct Hb as [_ Hb]. by specialize (Hb eq_refl).
Qed.

(** Pages joined by newlines are blank exactly when every page is. *)
Lemma join_lines_space (texts : list str) :
  forallb isspace (join_lines texts) = forallb (forallb isspace) texts.
Proof.
  induction texts as [|t rest IH]; [done|].
  destruct rest as [|t' rest].
  - simpl. by rewrite andb_true_r.
  - change (join_lines (t :: t' :: rest)) with (t ++ newline ++ join_lines (t' :: rest)).
    rewrite !forallb_isspace_app, IH. done.
Qed.

(** The page loop of [load_pdf_file] ends every page with a newline. *)
Lemma extract_pages_texts (texts : list str) (text_content : str) :
  TextFileLoader.extract_pages (map inr texts) text_content
  = inr (text_content ++ concat (map (fun t => t ++ newline) texts)).
Proof.
  revert text_content. induction texts as [|t rest IH]; intros acc; simpl.
  - by rewrite app_nil_r.
  - rewrite IH. by rewrite <- !app_assoc.
Qed.

Lemma terminated_lines_space (texts : list str) :
  forallb isspace (concat (map (fun t => t ++ newline) texts))
  = forallb (forallb isspace) texts.
Proof.
  induction texts as [|t rest IH]; [done|].
  simpl. rewrite !forallb_isspace_app, IH. simpl.
  by rewrite andb_true_r.
Qed.

Lemma endswith_txt_pdf (file : str) :
  endswith file (lit ".pdf") = true -> endswith file (lit ".txt") = false.
Proof.
  unfold endswith. intros Hp%bool_decide_eq_true.
  apply bool_decide_eq_false. change (length (lit ".txt")) with (length (lit ".pdf")).
  rewrite Hp. by vm_compute.
Qed.

(** ** PDFs without text *)

Lemma extend_nil (self : TextFileLoader.t) : TextFileLoader.extend self [] = self.
Proof. destruct self. unfold TextFileLoader.extend. simpl. by rewrite app_nil_r. Qed.

(** What [load_pdf_file] does when every page is extracted. *)
Lemma load_pdf_file_texts (fs : filesystem) (self : TextFileLoader.t) (out : stdout)
    (pdf_reader : PdfReader) (texts : list str) :
  open_pdf fs (TextFileLoader.path self) = inr pdf_reader ->
  pdf_pages pdf_reader = map inr texts ->
  TextFileLoader.load_pdf_file fs self out
  = if forallb isspace (join_lines texts)
    then (inr (), self,
          out ++ [lit "Warning: No text content extracted from " ++ TextFileLoader.path self])
    else (inr (),
          TextFileLoader.extend self [concat (map (fun t => t ++ newline) texts)],
          out).
Proof.
  intros Hopen Hpages. unfold TextFileLoader.load_pdf_file, TextFileLoader.read_pdf_text.
  rewrite Hopen, Hpages, extract_pages_texts. simpl app.
  rewrite truthy_strip, terminated_lines_space, <- join_lines_space.
  by destruct (forallb isspace (join_lines texts)).
Qed.

(** C8: when every page of a PDF is extracted and the page texts joined
    by newlines are blank, [load_pdf_file] appends nothing and prints the
    warning; when they are not blank it appends exactly one document, the
    pages each followed by a newline.  A directory load that meets the
    file under a name ending in [.pdf] gains the same zero or one
    document. *)
Theorem load_pdf_file_zero_or_one (fs : filesystem) (self : TextFileLoader.t)
    (out : stdout) (pdf_reader : PdfReader) (texts : list str) :
  open_pdf fs (TextFileLoader.path self) = inr pdf_reader ->
  pdf_pages pdf_reader = map inr texts ->
  (blank (join_lines texts) ->
     TextFileLoader.load_pdf_file fs self out
     = (inr (), self,
        out ++ [lit "Warning: No text content extracted from " ++ TextFileLoader.path self])
     /\ forall (root file : str) (parent : TextFileLoader.t),
          join root file = TextFileLoader.path self ->
          endswith file (lit ".pdf") = true ->
          TextFileLoader.load_directory_file fs root file parent out
          = (inr (), parent,
             out ++ [lit "Warning: No text content extracted from "
                     ++ TextFileLoader.path self]))
  /\ (~ blank (join_lines texts) ->
      TextFileLoader.load_pdf_file fs self out
      = (inr (),
         TextFileLoader.extend self [concat (map (fun t => t ++ newline) texts)],
         out)
      /\ forall (root file : str) (parent : TextFileLoader.t),
           join root file = TextFileLoader.path self ->
           endswith file (lit ".pdf") = true ->
           TextFileLoader.load_directory_file fs root file parent out
           = (inr (),
              TextFileLoader.extend parent [concat (map (fun t => t ++ newline) texts)],
              out)).
Proof.
  intros Hopen Hpages.
  assert (forall (root file : str) (parent : TextFileLoader.t),
            join root file = TextFileLoader.path self ->
            endswith file (lit ".pdf") = true ->
            TextFileLoader.load_directory_file fs root file parent out
            = if forallb isspace (join_lines texts)
              then (inr (), parent,
                    out ++ [lit "Warning: No text content extracted from "
                            ++ TextFileLoader.path self])
              else (inr (),
                    TextFileLoader.extend parent
                      [concat (map (fun t => t ++ newline) texts)],
                    out)) as Hdir.
  { intros root file parent Hjoin Hpdf. unfold TextFileLoader.load_directory_file.
    rewrite (endswith_txt_pdf file Hpdf), Hpdf. cbv zeta.
    rewrite (load_pdf_file_texts fs _ out pdf_reader texts);
      [|simpl; by rewrite Hjoin|done].
    destruct (forallb isspace (join_lines texts)); simpl.
    - by rewrite extend_nil, Hjoin.
    - done. }
  rewrite (load_pdf_file_texts fs self out pdf_reader texts Hopen Hpages).
  split; intros Hb.
  - apply blank_iff in Hb. split.
    + by rewrite Hb.
    + intros root file parent Hjoin Hpdf. by rewrite (Hdir root file parent Hjoin Hpdf), Hb.
  - destruct (forallb isspace (join_lines texts)) eqn:Hj; [by apply blank_iff in Hj|].
    split; [done|]. intros root file parent Hjoin Hpdf.
    by rewrite (Hdir root file parent Hjoin Hpdf).
Qed.

Lemma load_pdf_file_zero_or_one_witness :
  (TextFileLoader.load_pdf_file sample_fs
     (TextFileLoader.init (lit "data/sub/empty.pdf") (lit "utf-8")) []
   = (inr (), TextFileLoader.init (lit "data/sub/empty.pdf") (lit "utf-8"),
      [lit "Warning: No text content extracted from data/sub/empty.pdf"])
   /\ TextFileLoader.load_directory_file sample_fs (lit "data/sub") (lit "empty.pdf")
        (TextFileLoader.init (lit "data") (lit "utf-8")) []
      = (inr (), TextFileLoader.init (lit "data") (lit "utf-8"),
         [lit "Warning: No text content extracted from data/sub/empty.pdf"]))
  /\ (TextFileLoader.load_pdf_file sample_fs
       (TextFileLoader.init (lit "data/b.pdf") (lit "utf-8")) []
      = (inr (),
         TextFileLoader.extend (TextFileLoader.init (lit "data/b.pdf") (lit "utf-8"))
           [lit "world" ++ newline ++ lit "  " ++ newline ++ lit "again" ++ newline],
         [])
      /\ TextFileLoader.load_directory_file sample_fs (lit "data") (lit "b.pdf")
           (TextFileLoader.init (lit "data") (lit "utf-8")) []
         = (inr (),
            TextFileLoader.extend (TextFileLoader.init (lit "data") (lit "utf-8"))
              [lit "world" ++ newline ++ lit "  " ++ newline ++ lit "again" ++ newline],
            [])).
Proof.
  split.
  - destruct (proj1 (load_pdf_file_zero_or_one sample_fs
                    (TextFileLoader.init (lit "data/sub/empty.pdf") (lit "utf-8")) []
                    empty_pdf [lit " "; []] eq_refl eq_refl)) as [Hfile Hdir].
    { by vm_compute. }
    split; [exact Hfile|].
    apply (Hdir (lit "data/sub") (lit "empty.pdf")); reflexivity.
  - destruct (proj2 (load_pdf_file_zero_or_one sample_fs
                    (TextFileLoader.init (lit "data/b.pdf") (lit "utf-8")) []
                    world_pdf [lit "world"; lit "  "; lit "again"] eq_refl eq_refl))
      as [Hfile Hdir].
    { by vm_compute. }
    split; [exact Hfile|].
    apply (Hdir (lit "data") (lit "b.pdf")); reflexivity.
Defined.

(** ** Unsupported extensions *)

(** A file that is neither [.txt] nor [.pdf] leaves a directory load as
    it was. *)
Lemma load_directory_file_unsupported (fs : filesystem) (root file : str)
    (self : TextFileLoader.t) (out : stdout) :
  supported file = false ->
  TextFileLoader.load_directory_file fs root file self out = (inr (), self, out).
Proof.
  unfold supported. intros [Htxt Hpdf]%orb_false_iff.
  unfold TextFileLoader.load_directory_file. by rewrite Htxt, Hpdf.
Qed.

Lemma load_directory_files_supported (fs : filesystem) (root : str) (files : list str)
    (self : TextFileLoader.t) (out : stdout) :
  for_each (TextFileLoader.load_directory_file fs root) files self out
  = for_each (TextFileLoader.load_directory_file fs root) (List.filter supported files)
             self out.
Proof.
  revert self out. induction files as [|file files IH]; intros self out; [done|].
  simpl. destruct (supported file) eqn:Hsup; simpl.
  - destruct (TextFileLoader.load_directory_file fs root file self out)
      as [[[e|[]] self'] out']; [done|apply IH].
  - rewrite load_directory_file_unsupported by done. apply IH.
Qed.

(** C9: [load] on an existing file whose name ends in neither [.txt] nor
    [.pdf] raises the [ValueError] for unsupported files and leaves the
    loader as it was; in a directory load such a file returns normally
    without a document or a printed line, and the whole walk is the walk
    over the supported files alone. *)
Theorem load_unsupported_extension (fs : filesystem) :
  (forall (self : TextFileLoader.t) (out : stdout),
     isdir fs (TextFileLoader.path self) = false ->
     isfile fs (TextFileLoader.path self) = true ->
     endswith (TextFileLoader.path self) (lit ".txt") = false ->
     endswith (TextFileLoader.path self) (lit ".pdf") = false ->
     TextFileLoader.load fs self out
     = (inl (ValueError "Provided file is neither a .txt nor .pdf file."), self, out)
     /\ TextFileLoader.load_documents fs self out
        = (inl (ValueError "Provided file is neither a .txt nor .pdf file."), self, out))
  /\ (forall (root file : str) (self : TextFileLoader.t) (out : stdout),
        endswith file (lit ".txt") = false ->
        endswith file (lit ".pdf") = false ->
        TextFileLoader.load_directory_file fs root file self out = (inr (), self, out))
  /\ (forall (entries : list (str * list str * list str))
             (self : TextFileLoader.t) (out : stdout),
        TextFileLoader.load_directory_walk fs entries self out
        = TextFileLoader.load_directory_walk fs (map supported_only entries) self out).
Proof.
  split; [|split].
  - intros self out Hdir Hfile Htxt Hpdf.
    unfold TextFileLoader.load_documents, TextFileLoader.load.
    by rewrite Hdir, Hfile, Htxt, Hpdf.
  - intros root file self out Htxt Hpdf.
    apply load_directory_file_unsupported. unfold supported. by rewrite Htxt, Hpdf.
  - intros entries. unfold TextFileLoader.load_directory_walk.
    induction entries as [|[[root dirs] files] entries IH]; intros self out; [done|].
    simpl. rewrite <- load_directory_files_supported.
    destruct (for_each _ files self out) as [[[e|[]] self'] out']; [done|apply IH].
Qed.

Lemma load_unsupported_extension_witness :
  TextFileLoader.load sample_fs
    (TextFileLoader.init (lit "data/notes.md") (lit "utf-8")) []
  = (inl (ValueError "Provided file is neither a .txt nor .pdf file."),
     TextFileLoader.init (lit "data/notes.md") (lit "utf-8"), [])
  /\ TextFileLoader.load_directory_file sample_fs (lit "data") (lit "notes.md")
       (TextFileLoader.init (lit "data") (lit "utf-8")) []
     = (inr (), TextFileLoader.init (lit "data") (lit "utf-8"), []).
Proof.
  destruct (load_unsupported_extension sample_fs) as (Hfile & Hskip & _).
  split.
  - apply (Hfile (TextFileLoader.init (lit "data/notes.md") (lit "utf-8")) []);
      reflexivity.
  - apply (Hskip (lit "data") (lit "notes.md")); reflexivity.
Defined.

(** ** Loads only append *)

Lemma load_file_appends (fs : filesystem) : appends (TextFileLoader.load_file fs).
Proof.
  intros p enc. unfold TextFileLoader.load_file. simpl.
  destruct (read_text fs p enc) as [e|content].
  - exists (inl e), [], []. intros docs out. by rewrite !app_nil_r.
  - exists (inr ()), [content], []. intros docs out. by rewrite app_nil_r.
Qed.

Lemma load_pdf_file_appends (fs : filesystem) : appends (TextFileLoader.load_pdf_file fs).
Proof.
  intros p enc. unfold TextFileLoader.load_pdf_file, TextFileLoader.read_pdf_text. simpl.
  destruct (match open_pdf fs p with
            | inl e => inl e
            | inr pdf_reader => TextFileLoader.extract_pages (pdf_pages pdf_reader) []
            end) as [e|text_content].
  - eexists (inl e), [], [_]. intros docs out. by rewrite app_nil_r.
  - destruct (truthy (strip text_content)).
    + exists (inr ()), [text_content], []. intros docs out. by rewrite app_nil_r.
    + eexists (inr ()), [], [_]. intros docs out. by rewrite app_nil_r.
Qed.

Lemma load_directory_file_appends (fs : filesystem) (root file : str) :
  appends (TextFileLoader.load_directory_file fs root file).
Proof.
  intros p enc. unfold TextFileLoader.load_directory_file. simpl.
  destruct (endswith file (lit ".txt")).
  { destruct (read_text fs (join root file) enc) as [e|content].
    - exists (inl e), [], []. intros docs out. by rewrite !app_nil_r.
    - exists (inr ()), [content], []. intros docs out. by rewrite app_nil_r. }
  destruct (endswith file (lit ".pdf")).
  - destruct (load_pdf_file_appends fs (join root file) enc) as (r & new & printed & Hpdf).
    unfold TextFileLoader.init.
    destruct r as [e|[]].
    + exists (inl e), [], printed. intros docs out. by rewrite Hpdf, app_nil_r.
    + exists (inr ()), new, printed. intros docs out. by rewrite Hpdf.
  - exists (inr ()), [], []. intros docs out. by rewrite !app_nil_r.
Qed.

(** A loop whose body only appends only appends. *)
Lemma for_each_appends {A}
    (body : A -> TextFileLoader.t -> stdout -> result unit * TextFileLoader.t * stdout)
    (xs : list A) :
  (forall x, appends (body x)) -> appends (for_each body xs).
Proof.
  intros Hbody p enc. induction xs as [|x xs (r & new & printed & IH)]; simpl.
  - exists (inr ()), [], []. intros docs out. by rewrite !app_nil_r.
  - destruct (Hbody x p enc) as (rx & newx & printedx & Hx).
    destruct rx as [e|[]].
    + exists (inl e), newx, printedx. intros docs out. by rewrite Hx.
    + exists r, (newx ++ new), (printedx ++ printed). intros docs out.
      by rewrite Hx, IH, !app_assoc.
Qed.

Lemma load_directory_walk_appends (fs : filesystem)
    (entries : list (str * list str * list str)) :
  appends (TextFileLoader.load_directory_walk fs entries).
Proof.
  apply for_each_appends. intros [[root dirs] files].
  apply for_each_appends. intros file. apply load_directory_file_appends.
Qed.

Lemma load_appends (fs : filesystem) : appends (TextFileLoader.load fs).
Proof.
  intros p enc. unfold TextFileLoader.load, TextFileLoader.load_directory. simpl.
  destruct (isdir fs p); [apply load_directory_walk_appends|].
  destruct (isfile fs p).
  - destruct (endswith p (lit ".txt")); [apply load_file_appends|].
    destruct (endswith p (lit ".pdf")); [apply load_pdf_file_appends|].
    eexists (inl _), [], []. intros docs out. by rewrite !app_nil_r.
  - eexists (inl _), [], []. intros docs out. by rewrite !app_nil_r.
Qed.

Lemma load_directory_appends (fs : filesystem) :
  appends (TextFileLoader.load_directory fs).
Proof.
  intros p enc. unfold TextFileLoader.load_directory. simpl.
  apply (load_directory_walk_appends fs (walk fs p) p enc).
Qed.

(** C10: every load operation only appends to [documents]: what it adds
    is fixed by the tree, the path and the encoding, and what [documents]
    held before stays in front, whether the operation returns or raises.
    So when [load_documents] returns [docs1], these are the old documents
    followed by the loaded ones, and a second call on the same loader
    returns [docs1] followed by the loaded ones once more. *)
Theorem load_only_appends (fs : filesystem) :
  appends (TextFileLoader.load_file fs)
  /\ appends (TextFileLoader.load_pdf_file fs)
  /\ appends (TextFileLoader.load_directory fs)
  /\ appends (TextFileLoader.load fs)
  /\ (forall (self self1 : TextFileLoader.t) (out out1 : stdout) (docs1 : list str),
        TextFileLoader.load_documents fs self out = (inr docs1, self1, out1) ->
        exists (new : list str) (self2 : TextFileLoader.t) (out2 : stdout),
          docs1 = TextFileLoader.documents self ++ new
          /\ TextFileLoader.documents self1 = docs1
          /\ TextFileLoader.load_documents fs self1 out1
             = (inr (docs1 ++ new), self2, out2)
          /\ TextFileLoader.documents self2 = docs1 ++ new).
Proof.
  split; [apply load_file_appends|]. split; [apply load_pdf_file_appends|].
  split; [apply load_directory_appends|]. split; [apply load_appends|].
  intros [docs p enc] self1 out out1 docs1.
  destruct (load_appends fs p enc) as (r & new & printed & Hload).
  unfold TextFileLoader.load_documents. rewrite Hload.
  destruct r as [e|[]]; [done|]. intros [= <- <- <-].
  exists new. eexists _, _. rewrite Hload. simpl. done.
Qed.

Lemma load_only_appends_witness :
  exists (self1 self2 : TextFileLoader.t) (out1 out2 : stdout),
    TextFileLoader.load_documents sample_fs
      (TextFileLoader.init (lit "data/a.txt") (lit "utf-8")) []
    = (inr [lit "hello"], self1, out1)
    /\ TextFileLoader.load_documents sample_fs self1 out1
       = (inr [lit "hello"; lit "hello"], self2, out2).
Proof.
  destruct (load_only_appends sample_fs) as (_ & _ & _ & _ & Htwice).
  pose (self1 := TextFileLoader.extend
                   (TextFileLoader.init (lit "data/a.txt") (lit "utf-8")) [lit "hello"]).
  assert (TextFileLoader.load_documents sample_fs
            (TextFileLoader.init (lit "data/a.txt") (lit "utf-8")) []
          = (inr [lit "hello"], self1, [])) as Hfirst by reflexivity.
  destruct (Htwice _ _ _ _ _ Hfirst) as (new & self2 & out2 & Hnew & _ & Hsecond & _).
  simpl in Hnew. subst new.
  exists self1, self2, [], out2. split; [exact Hfirst | exact Hsecond].
Defined.

(** ** Pages and their metadata *)

Lemma retained_pages_texts (page_num : Z) (texts : list str) :
  map snd (retained_pages page_num texts)
  = List.filter (fun t => truthy (strip t)) texts.
Proof.
  revert page_num. induction texts as [|t rest IH]; intros p; simpl; [done|].
  destruct (truthy (strip t)); simpl; by rewrite IH.
Qed.

(** A retained page is a page of the file that is not blank, under its
    own index. *)
Lemma retained_pages_lookup (page_num : Z) (texts : list str) (j : Z) (t : str) :
  (j, t) ∈ retained_pages page_num texts ->
  page_num <= j /\ texts !! Z.to_nat (j - page_num) = Some t /\ strip t <> [].
Proof.
  revert page_num. induction texts as [|t' rest IH]; intros p; simpl.
  - by intros ?%elem_of_nil.
  - assert ((j, t) ∈ retained_pages (p + 1) rest ->
            p <= j /\ (t' :: rest) !! Z.to_nat (j - p) = Some t /\ strip t <> []) as Hrest.
    { intros (Hle & Hlook & Hne)%IH. split; [lia|]. split; [|done].
      replace (Z.to_nat (j - p)) with (S (Z.to_nat (j - (p + 1)))) by lia. done. }
    destruct (truthy (strip t')) eqn:Ht'; [|done].
    intros [[= -> ->]|Hin]%elem_of_cons; [|by apply Hrest].
    split; [lia|]. rewrite Z.sub_diag. split; [done|].
    intros Hnil. by rewrite Hnil in Ht'.
Qed.

(** The retained pages come in the order of the file, each index once. *)
Lemma retained_pages_sorted (page_num : Z) (texts : list str) :
  StronglySorted Z.lt (map (fun jt : Z * str => jt.1 + 1) (retained_pages page_num texts)).
Proof.
  revert page_num. induction texts as [|t rest IH]; intros p; simpl; [constructor|].
  destruct (truthy (strip t)); [|apply IH].
  simpl. constructor; [apply IH|].
  apply Forall_forall. intros x (jt & <- & Hin)%list_elem_of_In%in_map_iff.
  destruct jt as [j t0]. apply list_elem_of_In, retained_pages_lookup in Hin. simpl. lia.
Qed.

(** How one metadata record describes one retained page. *)
Lemma page_metadata_describes (self : PDFFileLoader.t) (total : Z)
    (info : gmap string str) (page_num : Z) :
  PDFFileLoader.page_number (PDFFileLoader.page_metadata self total info page_num)
  = page_num + 1
  /\ PDFFileLoader.source_file (PDFFileLoader.page_metadata self total info page_num)
     = PDFFileLoader.path self
  /\ PDFFileLoader.total_pages (PDFFileLoader.page_metadata self total info page_num)
     = total.
Proof. done. Qed.

(** Whatever the outcome of the page loop, both lists have grown by the
    same number of entries. *)
Lemma load_pages_lockstep (total : Z) (doc_info : option (gmap string str))
    (rest : list (result str)) (page_num : Z) (self : PDFFileLoader.t) :
  length (PDFFileLoader.documents self) = length (PDFFileLoader.metadata self) ->
  length (PDFFileLoader.documents
            (PDFFileLoader.load_pages total doc_info rest page_num self).2)
  = length (PDFFileLoader.metadata
              (PDFFileLoader.load_pages total doc_info rest page_num self).2).
Proof.
  revert page_num self.
  induction rest as [|[e|text_content] rest IH]; intros p self Hlen; simpl; [done..|].
  destruct (truthy (strip text_content)); [|by apply IH].
  destruct doc_info as [info|]; [|done].
  apply IH. simpl. rewrite !length_app.  simpl. lia.
Qed.

(** When the page loop returns, every page was extracted, the documents
    gained the retained pages and the metadata one record for each. *)
Lemma load_pages_returns (total : Z) (doc_info : option (gmap string str))
    (rest : list (result str)) (page_num : Z) (self self' : PDFFileLoader.t) :
  PDFFileLoader.load_pages total doc_info rest page_num self = (inr (), self') ->
  exists (texts : list str) (metas : list PDFFileLoader.PageMetadata),
    rest = map inr texts
    /\ PDFFileLoader.documents self'
       = PDFFileLoader.documents self ++ map snd (retained_pages page_num texts)
    /\ PDFFileLoader.metadata self' = PDFFileLoader.metadata self ++ metas
    /\ Forall2 (fun (jt : Z * str) m =>
                  PDFFileLoader.page_number m = jt.1 + 1
                  /\ PDFFileLoader.source_file m = PDFFileLoader.path self
                  /\ PDFFileLoader.total_pages m = total)
               (retained_pages page_num texts) metas.
Proof.
  revert page_num self.
  induction rest as [|[e|text_content] rest IH]; intros p self; simpl.
  - intros [= <-]. exists [], []. by rewrite !app_nil_r.
  - done.
  - destruct (truthy (strip text_content)) eqn:Htext.
    + destruct doc_info as [info|]; [|done].
      intros (texts & metas & -> & Hdocs & Hmetas & Hall)%IH.
      exists (text_content :: texts),
             (PDFFileLoader.page_metadata self total info p :: metas).
      simpl in *. rewrite Htext, Hdocs, Hmetas, <- !app_assoc. simpl.
      repeat split; try done. by constructor.
    + intros (texts & metas & -> & Hdocs & Hmetas & Hall)%IH.
      exists (text_content :: texts), metas. simpl. by rewrite Htext.
Qed.

(** With an info dictionary and every page extracted, the page loop
    returns. *)
Lemma load_pages_total (total : Z) (info : gmap string str) (texts : list str)
    (page_num : Z) (self : PDFFileLoader.t) :
  exists self',
    PDFFileLoader.load_pages total (Some info) (map inr texts) page_num self
    = (inr (), self').
Proof.
  revert page_num self. induction texts as [|t texts IH]; intros p self; simpl.
  - by eexists.
  - destruct (truthy (strip t)); apply IH.
Qed.

Lemma metadata_page_numbers (total : Z) (p : str) (retained : list (Z * str))
    (metas : list PDFFileLoader.PageMetadata) :
  Forall2 (fun (jt : Z * str) m =>
             PDFFileLoader.page_number m = jt.1 + 1
             /\ PDFFileLoader.source_file m = p
             /\ PDFFileLoader.total_pages m = total) retained metas ->
  map PDFFileLoader.page_number metas = map (fun jt : Z * str => jt.1 + 1) retained.
Proof.
  induction 1 as [|jt m retained metas (Hnum & _) _ IH]; simpl; [done|].
  by rewrite Hnum, IH.
Qed.

(** C7: [load_pdf_with_metadata] keeps [documents] and [metadata] of the
    same length, whether it returns or raises; and when [load_documents]
    on a new loader returns, every page was extracted, the documents are
    the non-blank page texts in the order of the file, there is one
    metadata record for each, their page numbers increase, and the record
    at index [i] carries the number of the page whose text is the document
    at index [i].  It does return when every page is extracted and the
    file has an info dictionary. *)
Theorem load_pdf_with_metadata_aligned (fs : filesystem) :
  (forall (self self' : PDFFileLoader.t) (out out' : stdout) (r : result unit),
     length (PDFFileLoader.documents self) = length (PDFFileLoader.metadata self) ->
     PDFFileLoader.load_pdf_with_metadata fs self out = (r, self', out') ->
     length (PDFFileLoader.documents self') = length (PDFFileLoader.metadata self'))
  /\ (forall (path : str) (out out' : stdout) (self' : PDFFileLoader.t)
             (docs : list str) (metas : list PDFFileLoader.PageMetadata),
        PDFFileLoader.load_documents fs (PDFFileLoader.init path) out
        = (inr (docs, metas), self', out') ->
        exists (pdf_reader : PdfReader) (texts : list str),
          open_pdf fs path = inr pdf_reader
          /\ pdf_pages pdf_reader = map inr texts
          /\ docs = List.filter (fun t => truthy (strip t)) texts
          /\ length metas = length docs
          /\ StronglySorted Z.lt (map PDFFileLoader.page_number metas)
          /\ forall (i : nat) (m : PDFFileLoader.PageMetadata),
               metas !! i = Some m ->
               exists d : str,
                 docs !! i = Some d
                 /\ texts !! Z.to_nat (PDFFileLoader.page_number m - 1) = Some d
                 /\ 1 <= PDFFileLoader.page_number m
                 /\ strip d <> []
                 /\ PDFFileLoader.source_file m = path
                 /\ PDFFileLoader.total_pages m = len texts)
  /\ (forall (path : str) (out : stdout) (pdf_reader : PdfReader) (texts : list str)
             (info : gmap string str),
        open_pdf fs path = inr pdf_reader ->
        pdf_pages pdf_reader = map inr texts ->
        pdf_metadata pdf_reader = Some info ->
        exists docs metas self',
          PDFFileLoader.load_documents fs (PDFFileLoader.init path) out
          = (inr (docs, metas), self', out)).
Proof.
  split; [|split].
  - intros self self' out out' r Hlen. unfold PDFFileLoader.load_pdf_with_metadata.
    destruct (open_pdf fs (PDFFileLoader.path self)) as [e|pdf_reader].
    { by intros [= _ <- _]. }
    pose proof (load_pages_lockstep (len (pdf_pages pdf_reader))
                  (pdf_metadata pdf_reader) (pdf_pages pdf_reader) 0 self Hlen) as Hstep.
    destruct (PDFFileLoader.load_pages _ _ _ 0 self) as [[e|[]] self1];
      by intros [= _ <- _].
  - intros path out out' self' docs metas.
    unfold PDFFileLoader.load_documents, PDFFileLoader.load_pdf_with_metadata.
    simpl. destruct (open_pdf fs path) as [e|pdf_reader]; [done|].
    destruct (PDFFileLoader.load_pages _ _ _ 0 _) as [[e|[]] self1] eqn:Hloop; [done|].
    intros [= <- <- <- _].
    destruct (load_pages_returns _ _ _ _ _ _ Hloop)
      as (texts & metas & Hpages & Hdocs & Hmetas & Hall).
    simpl in Hdocs, Hmetas, Hall. rewrite Hpages in Hall.
    exists pdf_reader, texts. split; [done|]. split; [done|].
    rewrite Hdocs, Hmetas, retained_pages_texts.
    split; [done|]. split.
    { rewrite <- (retained_pages_texts 0), length_map. symmetry.
      exact (Forall2_length _ _ _ Hall). }
    split.
    { rewrite (metadata_page_numbers _ _ _ _ Hall). apply retained_pages_sorted. }
    intros i m Hm.
    destruct (Forall2_lookup_r _ _ _ _ _ Hall Hm) as ([j d] & Hjd & Hnum & Hsrc & Htot).
    simpl in Hnum.
    assert ((j, d) ∈ retained_pages 0 texts) as Hin by (by eapply list_elem_of_lookup_2).
    apply retained_pages_lookup in Hin as (Hj & Hpage & Hne).
    exists d. rewrite <- (retained_pages_texts 0), list_lookup_fmap, Hjd.
    split; [done|]. split.
    { rewrite Hnum. by replace (j + 1 - 1) with (j - 0) by lia. }
    split; [lia|]. split; [done|]. split; [done|].
    rewrite Htot. unfold len. by rewrite length_map.
  - intros path out pdf_reader texts info Hopen Hpages Hinfo.
    unfold PDFFileLoader.load_documents, PDFFileLoader.load_pdf_with_metadata.
    simpl. rewrite Hopen, Hpages, Hinfo.
    destruct (load_pages_total (len (map (@inr exception str) texts)) info texts 0
                (PDFFileLoader.init path)) as [self' Hloop].
    rewrite Hloop. by eexists _, _, _.
Qed.

Lemma load_pdf_with_metadata_aligned_witness :
  exists (docs : list str) (metas : list PDFFileLoader.PageMetadata)
         (self' : PDFFileLoader.t),
    PDFFileLoader.load_documents sample_fs (PDFFileLoader.init (lit "data/b.pdf")) []
    = (inr (docs, metas), self', [])
    /\ length (PDFFileLoader.documents self') = length (PDFFileLoader.metadata self')
    /\ length metas = length docs
    /\ exists (pdf_reader : PdfReader) (texts : list str),
         open_pdf sample_fs (lit "data/b.pdf") = inr pdf_reader
         /\ pdf_pages pdf_reader = map inr texts
         /\ docs = List.filter (fun t => truthy (strip t)) texts.
Proof.
  destruct (load_pdf_with_metadata_aligned sample_fs) as (Hlock & Haligned & Hreturns).
  destruct (Hreturns (lit "data/b.pdf") [] world_pdf
              [lit "world"; lit "  "; lit "again"] {[ "/Title" := lit "World" ]}
              eq_refl eq_refl eq_refl) as (docs & metas & self' & Hload).
  exists docs, metas, self'. split; [exact Hload|].
  destruct (Haligned _ _ _ _ _ _ Hload)
    as (pdf_reader & texts & Hopen & Hpages & Hdocs & Hlen & _).
  split.
  - unfold PDFFileLoader.load_documents in Hload.
    destruct (PDFFileLoader.load_pdf_with_metadata sample_fs
                (PDFFileLoader.init (lit "data/b.pdf")) [])
      as [[r self1] out1] eqn:Hrun.
    assert (self1 = self') as <-.
    { destruct r as [e|[]]; [discriminate Hload|]. by injection Hload. }
    apply (Hlock (PDFFileLoader.init (lit "data/b.pdf")) _ _ _ _ eq_refl Hrun).
  - split; [exact Hlen|]. by exists pdf_reader, texts.
Defined.

(** * Further properties of the splitter *)

(** A chunk is never longer than [chunk_size]: chunk [i] has
    [min(n, len(s) - i * (n - k))] characters, so only chunks that reach
    the end of the string are shorter, and for [n > 0] none is empty. *)
Theorem split_chunk_lengths (s : str) (n k : Z) :
  k < n -> 0 <= n ->
  exists chunks,
    split_with s n k = inr chunks
    /\ forall (i : nat) (c : str), chunks !! i = Some c ->
         len c = Z.min n (len s - Z.of_nat i * (n - k))
         /\ len c <= n
         /\ (0 < n -> c <> []).
Proof.
  intros Hnk Hn. eexists. split; [by apply split_with_closed|].
  pose proof (ceil_div_spec (len s) (n - k) ltac:(lia)) as Hc.
  fold (chunk_count s n k) in Hc.
  pose proof (chunk_count_nonneg s n k Hnk) as Hm0.
  intros i c Hi. rewrite list_lookup_fmap in Hi.
  destruct (seq 0 _ !! i) as [j|] eqn:Hj; [|done].
  apply lookup_seq in Hj as [-> Hlt]. simpl in Hi. injection Hi as <-.
  assert (0 <= Z.of_nat i * (n - k) < len s) as Hoff by nia.
  rewrite chunk_window by lia.
  assert (len (take (Z.to_nat n) (drop (i * Z.to_nat (n - k)) s))
          = Z.min n (len s - Z.of_nat i * (n - k))) as Hlen.
  { unfold len in *. rewrite length_take, length_drop.
    assert (Z.of_nat (i * Z.to_nat (n - k)) = Z.of_nat i * (n - k)) as Hmul
      by (rewrite Nat2Z.inj_mul; lia).
    lia. }
  split; [exact Hlen|]. split; [lia|].
  intros Hpos Hnil. rewrite Hnil in Hlen. unfold len in *. simpl length in Hlen. lia.
Qed.

Lemma split_chunk_lengths_witness :
  1 < 4 /\ 0 <= 4 /\
  exists chunks,
    split_with (lit "abcdefghij") 4 1 = inr chunks
    /\ forall (i : nat) (c : str), chunks !! i = Some c ->
         len c = Z.min 4 (len (lit "abcdefghij") - Z.of_nat i * (4 - 1))
         /\ len c <= 4
         /\ (0 < 4 -> c <> []).
Proof.
  split; [lia|]. split; [lia|].
  apply (split_chunk_lengths (lit "abcdefghij") 4 1); lia.
Defined.

(** With [0 <= k < n], what a chunk holds beyond the advance [n - k] is
    the beginning of the next chunk: consecutive chunks share those
    characters, [k] of them when the earlier chunk is full. *)
Theorem split_overlap (s : str) (n k : Z) :
  0 <= k -> k < n ->
  exists chunks,
    split_with s n k = inr chunks
    /\ forall (i : nat) (c c' : str),
         chunks !! i = Some c -> chunks !! S i = Some c' ->
         drop (Z.to_nat (n - k)) c = take (Z.to_nat k) c'
         /\ (len c = n -> len (take (Z.to_nat k) c') = k).
Proof.
  intros Hk Hnk. eexists. split; [by apply split_with_closed|].
  intros i c c' Hi Hi'. rewrite list_lookup_fmap in Hi, Hi'.
  destruct (seq 0 _ !! i) as [j|] eqn:Hj; [|done].
  destruct (seq 0 _ !! S i) as [j'|] eqn:Hj'; [|done].
  apply lookup_seq in Hj as [-> _]. apply lookup_seq in Hj' as [-> _].
  simpl in Hi, Hi'. injection Hi as <-. injection Hi' as <-.
  rewrite !chunk_window by lia.
  set (d := Z.to_nat (n - k)). set (l := drop (i * d) s).
  assert (drop (S i * d) s = drop d l) as ->.
  { unfold l. rewrite drop_drop. f_equal. lia. }
  assert (drop d (take (Z.to_nat n) l) = take (Z.to_nat k) (take (Z.to_nat n) (drop d l)))
    as Heq.
  { rewrite take_take. replace (Z.to_nat k `min` Z.to_nat n)%nat with (Z.to_nat k) by lia.
    replace (Z.to_nat n) with (d + Z.to_nat k)%nat by (unfold d; lia).
    by rewrite <- take_drop_commute. }
  split; [exact Heq|].
  intros Hfull. rewrite <- Heq. unfold len in *.
  rewrite length_drop. unfold d. lia.
Qed.

Lemma split_overlap_witness :
  0 <= 1 /\ 1 < 4 /\
  exists chunks,
    split_with (lit "abcdefghij") 4 1 = inr chunks
    /\ forall (i : nat) (c c' : str),
         chunks !! i = Some c -> chunks !! S i = Some c' ->
         drop (Z.to_nat (4 - 1)) c = take (Z.to_nat 1) c'
         /\ (len c = 4 -> len (take (Z.to_nat 1) c') = 1).
Proof.
  split; [lia|]. split; [lia|].
  apply (split_overlap (lit "abcdefghij") 4 1); lia.
Defined.

(** The loop of [split_texts] from [chunks] is the loop from nothing,
    with [chunks] in front. *)
Lemma split_texts_loop_acc (self : CharacterTextSplitter.t) (texts : list str)
    (chunks : list str) :
  split_texts_loop self texts chunks
  = match split_texts_loop self texts [] with
    | inl e => inl e
    | inr cs => inr (chunks ++ cs)
    end.
Proof.
  revert chunks. induction texts as [|text texts IH]; intros chunks; simpl.
  - by rewrite app_nil_r.
  - destruct (split self text) as [e|cs]; [done|].
    rewrite (IH (chunks ++ cs)), (IH cs).
    destruct (split_texts_loop self texts []) as [e|cs']; [done|].
    by rewrite app_assoc.
Qed.

(** The fields of a splitter can be assigned after construction.  When
    they are equal, [split] raises the [ValueError] of [range] for every
    text, also the empty one, and [split_texts] raises it unless it is
    given no text at all; when [chunk_size < chunk_overlap] both return
    no chunk. *)
Theorem split_without_advance (self : CharacterTextSplitter.t) :
  (chunk_size self = chunk_overlap self ->
     (forall text : str,
        split self text = inl (ValueError "range() arg 3 must not be zero"))
     /\ split_texts self [] = inr []
     /\ (forall (text : str) (texts : list str),
           split_texts self (text :: texts)
           = inl (ValueError "range() arg 3 must not be zero")))
  /\ (chunk_size self < chunk_overlap self ->
      (forall text : str, split self text = inr [])
      /\ (forall texts : list str, split_texts self texts = inr [])).
Proof.
  split.
  - intros Heq.
    assert (forall text : str,
              split self text = inl (ValueError "range() arg 3 must not be zero"))
      as Hsplit.
    { intros text. unfold split, range. by rewrite Heq, Z.sub_diag. }
    split; [exact Hsplit|]. split; [done|].
    intros text texts. unfold split_texts. simpl. by rewrite Hsplit.
  - intros Hlt.
    assert (forall text : str, split self text = inr []) as Hsplit.
    { intros text. unfold split, range, range_length.
      destruct (Z.eqb_spec (chunk_size self - chunk_overlap self) 0) as [?|_]; [lia|].
      destruct (Z.ltb_spec 0 (chunk_size self - chunk_overlap self)) as [?|_]; [lia|].
      destruct (Z.ltb_spec (len text) 0) as [Hneg|_]; [|done].
      pose proof (len_nonneg text). lia. }
    split; [exact Hsplit|].
    intros texts. unfold split_texts.
    induction texts as [|text texts IH]; simpl; [done|].
    by rewrite Hsplit.
Qed.

Lemma split_without_advance_witness :
  split {| chunk_size := 5; chunk_overlap := 5 |} (lit "abc")
  = inl (ValueError "range() arg 3 must not be zero")
  /\ split_texts {| chunk_size := 2; chunk_overlap := 5 |} [lit "abc"; lit "de"] = inr [].
Proof.
  split.
  - apply (proj1 (split_without_advance {| chunk_size := 5; chunk_overlap := 5 |})).
    reflexivity.
  - apply (proj2 (split_without_advance {| chunk_size := 2; chunk_overlap := 5 |})).
    simpl. lia.
Defined.

(** [split_texts] on two lists of texts one after the other: the chunks
    of the first list followed by the chunks of the second, and the
    exception of whichever raises first. *)
Theorem split_texts_app (self : CharacterTextSplitter.t) (xs ys : list str) :
  split_texts self (xs ++ ys)
  = match split_texts self xs with
    | inl e => inl e
    | inr a =>
        match split_texts self ys with
        | inl e => inl e
        | inr b => inr (a ++ b)
        end
    end.
Proof.
  unfold split_texts. induction xs as [|x xs IH]; simpl.
  - by destruct (split_texts_loop self ys []).
  - destruct (split self x) as [e|cs]; [done|].
    rewrite (split_texts_loop_acc self (xs ++ ys)), IH.
    rewrite (split_texts_loop_acc self xs cs).
    destruct (split_texts_loop self xs []) as [e|a]; [done|].
    destruct (split_texts_loop self ys []) as [e|b]; [done|].
    by rewrite app_assoc.
Qed.

(** For [n > k] the number of chunks of several texts is the sum of
    [ceil(len(t) / (n - k))] over the texts, and empty texts can be left
    out without changing the result. *)
Theorem split_many_count (texts : list str) (n k : Z) :
  k < n ->
  exists chunks,
    split_many_with texts n k = inr chunks
    /\ len chunks = fold_right Z.add 0 (map (fun t => chunk_count t n k) texts)
    /\ split_many_with (List.filter truthy texts) n k = inr chunks.
Proof.
  intros Hnk. unfold split_many_with, init.
  destruct (Z.ltb_spec k n) as [_|?]; [|lia].
  set (sp := {| chunk_size := n; chunk_overlap := k |}).
  unfold split_texts. induction texts as [|t texts (chunks & Hall & Hlen & Hfilter)].
  - by exists [].
  - simpl. pose proof (split_closed sp t ltac:(simpl; lia)) as Ht. simpl in Ht.
    rewrite Ht, split_texts_loop_acc, Hall. eexists. split; [reflexivity|]. split.
    + unfold len in *. rewrite !length_app, length_map, length_seq.
      pose proof (chunk_count_nonneg t n k Hnk). simpl length. lia.
    + destruct t as [|c t]; simpl.
      * exact Hfilter.
      * pose proof (split_closed sp (c :: t) ltac:(simpl; lia)) as Ht'. simpl in Ht'.
        by rewrite Ht', split_texts_loop_acc, Hfilter.
Qed.

Lemma split_many_count_witness :
  1 < 4 /\
  exists chunks,
    split_many_with [lit "abcdefghij"; []; lit "xyz"] 4 1 = inr chunks
    /\ len chunks
       = fold_right Z.add 0
           (map (fun t => chunk_count t 4 1) [lit "abcdefghij"; []; lit "xyz"])
    /\ split_many_with (List.filter truthy [lit "abcdefghij"; []; lit "xyz"]) 4 1
       = inr chunks.
Proof.
  split; [lia|].
  apply (split_many_count [lit "abcdefghij"; []; lit "xyz"] 4 1). lia.
Defined.

Example main_short_play :
  main (play_fs (lit "Blow, winds, and crack your cheeks!")) []
  = (inl (IndexError "list index out of range"),
     [lit "1"; lit "Blow, winds, and crack your cheeks!"; dashes]).
Proof. by vm_compute. Qed.

(** * Further properties of the text loader *)

(** A path that is neither a directory nor a file makes [load] raise its
    second [ValueError], whatever the name ends in; nothing is read,
    appended or printed. *)
Theorem load_missing_path (fs : filesystem) (self : TextFileLoader.t) (out : stdout) :
  isdir fs (TextFileLoader.path self) = false ->
  isfile fs (TextFileLoader.path self) = false ->
  TextFileLoader.load fs self out
  = (inl (ValueError "Provided path is neither a valid directory nor a supported file."),
     self, out)
  /\ TextFileLoader.load_documents fs self out
     = (inl (ValueError "Provided path is neither a valid directory nor a supported file."),
        self, out).
Proof.
  intros Hdir Hfile. unfold TextFileLoader.load_documents, TextFileLoader.load.
  by rewrite Hdir, Hfile.
Qed.

Lemma load_missing_path_witness :
  TextFileLoader.load sample_fs (TextFileLoader.init (lit "data/c.txt") (lit "utf-8")) []
  = (inl (ValueError "Provided path is neither a valid directory nor a supported file."),
     TextFileLoader.init (lit "data/c.txt") (lit "utf-8"), []).
Proof.
  apply (load_missing_path sample_fs
           (TextFileLoader.init (lit "data/c.txt") (lit "utf-8")) []); reflexivity.
Defined.

(** A [.txt] file gives exactly one document, its content as read, also
    when that content is empty or blank; when the read raises, the
    exception goes to the caller and nothing is appended or printed.  It
    is so for [load] on the file and for the file met in a directory. *)
Theorem load_text_file (fs : filesystem) (self : TextFileLoader.t) (out : stdout) :
  (isdir fs (TextFileLoader.path self) = false ->
   isfile fs (TextFileLoader.path self) = true ->
   endswith (TextFileLoader.path self) (lit ".txt") = true ->
   TextFileLoader.load fs self out
   = match read_text fs (TextFileLoader.path self) (TextFileLoader.encoding self) with
     | inl e => (inl e, self, out)
     | inr content => (inr (), TextFileLoader.extend self [content], out)
     end)
  /\ (forall root file : str,
        endswith file (lit ".txt") = true ->
        TextFileLoader.load_directory_file fs root file self out
        = match read_text fs (join root file) (TextFileLoader.encoding self) with
          | inl e => (inl e, self, out)
          | inr content => (inr (), TextFileLoader.extend self [content], out)
          end).
Proof.
  split.
  - intros Hdir Hfile Htxt. unfold TextFileLoader.load, TextFileLoader.load_file.
    by rewrite Hdir, Hfile, Htxt.
  - intros root file Htxt. unfold TextFileLoader.load_directory_file.
    by rewrite Htxt.
Qed.

Lemma load_text_file_witness :
  TextFileLoader.load sample_fs (TextFileLoader.init (lit "data/a.txt") (lit "utf-8")) []
  = (inr (),
     TextFileLoader.extend (TextFileLoader.init (lit "data/a.txt") (lit "utf-8"))
       [lit "hello"], [])
  /\ TextFileLoader.load_directory_file sample_fs (lit "data") (lit "a.txt")
       (TextFileLoader.init (lit "data") (lit "utf-8")) []
     = (inr (),
        TextFileLoader.extend (TextFileLoader.init (lit "data") (lit "utf-8"))
          [lit "hello"], []).
Proof.
  split.
  - apply (proj1 (load_text_file sample_fs
                    (TextFileLoader.init (lit "data/a.txt") (lit "utf-8")) []));
      reflexivity.
  - apply (proj2 (load_text_file sample_fs
                    (TextFileLoader.init (lit "data") (lit "utf-8")) [])
             (lit "data") (lit "a.txt")); reflexivity.
Defined.

(** The page loop of [load_pdf_file] stops at the first page whose
    extraction raises, whatever was gathered before. *)
Lemma extract_pages_raises (texts : list str) (e : exception) (rest : list (result str))
    (text_content : str) :
  TextFileLoader.extract_pages (map inr texts ++ inl e :: rest) text_content = inl e.
Proof.
  revert text_content. induction texts as [|t texts IH]; intros acc; simpl; [done|].
  apply IH.
Qed.

(** When the PDF cannot be opened, or the extraction of one of its pages
    raises, [load_pdf_file] prints one line naming the file and the
    message and raises the same exception; no document is appended, also
    when earlier pages had text. *)
Theorem load_pdf_file_failure (fs : filesystem) (self : TextFileLoader.t) (out : stdout)
    (e : exception) :
  (open_pdf fs (TextFileLoader.path self) = inl e
   \/ exists (pdf_reader : PdfReader) (texts : list str) (rest : list (result str)),
        open_pdf fs (TextFileLoader.path self) = inr pdf_reader
        /\ pdf_pages pdf_reader = map inr texts ++ inl e :: rest) ->
  TextFileLoader.load_pdf_file fs self out
  = (inl e, self,
     out ++ [lit "Error reading PDF file " ++ TextFileLoader.path self
             ++ lit ": " ++ exc_message e]).
Proof.
  unfold TextFileLoader.load_pdf_file, TextFileLoader.read_pdf_text.
  intros [Hopen|(pdf_reader & texts & rest & Hopen & Hpages)]; rewrite Hopen; [done|].
  by rewrite Hpages, extract_pages_raises.
Qed.

Lemma load_pdf_file_failure_witness :
  TextFileLoader.load_pdf_file sample_fs
    (TextFileLoader.init (lit "data/c.pdf") (lit "utf-8")) []
  = (inl (no_such_file (lit "data/c.pdf")),
     TextFileLoader.init (lit "data/c.pdf") (lit "utf-8"),
     [lit "Error reading PDF file data/c.pdf: data/c.pdf"]).
Proof.
  apply (load_pdf_file_failure sample_fs
           (TextFileLoader.init (lit "data/c.pdf") (lit "utf-8")) []
           (no_such_file (lit "data/c.pdf"))).
  left. reflexivity.
Defined.

(** ** Directory loads *)

Lemma for_each_app {A S : Type} (body : A -> S -> stdout -> result unit * S * stdout)
    (xs ys : list A) (self : S) (out : stdout) :
  for_each body (xs ++ ys) self out
  = match for_each body xs self out with
    | (inl e, self', out') => (inl e, self', out')
    | (inr _, self', out') => for_each body ys self' out'
    end.
Proof.
  revert self out. induction xs as [|x xs IH]; intros self out; simpl; [done|].
  destruct (body x self out) as [[[e|[]] self'] out']; [done|apply IH].
Qed.

(** A file that makes the directory load raise adds no document. *)
Lemma load_directory_file_raises (fs : filesystem) (root file : str)
    (self self' : TextFileLoader.t) (out out' : stdout) (e : exception) :
  TextFileLoader.load_directory_file fs root file self out = (inl e, self', out') ->
  self' = self.
Proof.
  unfold TextFileLoader.load_directory_file.
  destruct (endswith file (lit ".txt")).
  { destruct (read_text fs _ _); by intros [= _ <- _]. }
  destruct (endswith file (lit ".pdf")); [|done].
  destruct (TextFileLoader.load_pdf_file fs _ out) as [[[e'|[]] s1] o1];
    by intros [= _ <- _].
Qed.

(** The first file that raises ends the directory load: the documents of
    the files before it stay, it adds none itself, and the files and
    directories after it are not read. *)
Theorem load_directory_stops_at_failure (fs : filesystem)
    (before after : list (str * list str * list str)) (root : str)
    (dirs files1 files2 : list str) (file : str)
    (self s1 s2 s3 : TextFileLoader.t) (out o1 o2 o3 : stdout) (e : exception) :
  TextFileLoader.load_directory_walk fs before self out = (inr (), s1, o1) ->
  for_each (TextFileLoader.load_directory_file fs root) files1 s1 o1 = (inr (), s2, o2) ->
  TextFileLoader.load_directory_file fs root file s2 o2 = (inl e, s3, o3) ->
  TextFileLoader.load_directory_walk fs
    (before ++ (root, dirs, files1 ++ file :: files2) :: after) self out
  = (inl e, s2, o3).
Proof.
  intros Hbefore Hfiles1 Hfile.
  pose proof (load_directory_file_raises _ _ _ _ _ _ _ _ Hfile) as ->.
  unfold TextFileLoader.load_directory_walk in *.
  rewrite for_each_app, Hbefore. simpl.
  by rewrite for_each_app, Hfiles1; simpl; rewrite Hfile.
Qed.

Lemma load_directory_stops_at_failure_witness :
  TextFileLoader.load_directory_walk sample_fs
    ([(lit "data", [lit "sub"], [lit "a.txt"])]
     ++ (lit "data", [], [lit "notes.md"] ++ lit "c.pdf" :: [lit "b.pdf"])
     :: [(lit "data/sub", [], [lit "empty.pdf"])])
    (TextFileLoader.init (lit "data") (lit "utf-8")) []
  = (inl (no_such_file (lit "data/c.pdf")),
     TextFileLoader.extend (TextFileLoader.init (lit "data") (lit "utf-8")) [lit "hello"],
     [lit "Error reading PDF file data/c.pdf: data/c.pdf"]).
Proof.
  apply (load_directory_stops_at_failure sample_fs
           [(lit "data", [lit "sub"], [lit "a.txt"])]
           [(lit "data/sub", [], [lit "empty.pdf"])]
           (lit "data") [] [lit "notes.md"] [lit "b.pdf"] (lit "c.pdf")
           (TextFileLoader.init (lit "data") (lit "utf-8"))
           (TextFileLoader.extend (TextFileLoader.init (lit "data") (lit "utf-8"))
              [lit "hello"])
           (TextFileLoader.extend (TextFileLoader.init (lit "data") (lit "utf-8"))
              [lit "hello"])
           (TextFileLoader.extend (TextFileLoader.init (lit "data") (lit "utf-8"))
              [lit "hello"])
           [] [] [] [lit "Error reading PDF file data/c.pdf: data/c.pdf"]
           (no_such_file (lit "data/c.pdf"))); reflexivity.
Defined.

(** A directory in which no file name ends in [.txt] or [.pdf], an empty
    one among them, loads without an error: [load] changes nothing, and on
    a new loader [load_documents] returns the empty list. *)
Theorem load_directory_nothing_supported (fs : filesystem) (path encoding : str)
    (out : stdout) :
  isdir fs path = true ->
  (forall root dirs files file,
     (root, dirs, files) ∈ walk fs path -> file ∈ files -> supported file = false) ->
  TextFileLoader.load_documents fs (TextFileLoader.init path encoding) out
  = (inr [], TextFileLoader.init path encoding, out).
Proof.
  intros Hdir Hnone.
  unfold TextFileLoader.load_documents, TextFileLoader.load, TextFileLoader.load_directory.
  simpl. rewrite Hdir.
  assert (forall entries self,
            (forall root dirs files file,
               (root, dirs, files) ∈ entries -> file ∈ files -> supported file = false) ->
            TextFileLoader.load_directory_walk fs entries self out = (inr (), self, out))
    as Hwalk.
  { unfold TextFileLoader.load_directory_walk.
    induction entries as [|[[root dirs] files] entries IH]; intros self Hall; [done|].
    simpl. rewrite load_directory_files_supported.
    assert (List.filter supported files = []) as ->.
    { assert (forall file, file ∈ files -> supported file = false) as Hfiles.
      { intros file Hin. apply (Hall root dirs files file); [left|exact Hin]. }
      clear -Hfiles. induction files as [|f files IH]; [done|]. simpl.
      rewrite (Hfiles f) by left. apply IH. intros file Hin. apply Hfiles. by right. }
    simpl. apply IH. intros root' dirs' files' file Hin.
    apply (Hall root' dirs' files' file). by right. }
  by rewrite Hwalk.
Qed.

Lemma load_directory_nothing_supported_witness :
  TextFileLoader.load_documents notes_fs
    (TextFileLoader.init (lit "docs") (lit "utf-8")) []
  = (inr [], TextFileLoader.init (lit "docs") (lit "utf-8"), []).
Proof.
  apply (load_directory_nothing_supported notes_fs (lit "docs") (lit "utf-8") []).
  - reflexivity.
  - intros root dirs files file Hentry Hfile.
    change (walk notes_fs (lit "docs"))
      with [(lit "docs", @nil str, [lit "README.md"; lit "fig.png"])] in Hentry.
    apply list_elem_of_singleton in Hentry. injection Hentry as -> -> ->.
    apply elem_of_cons in Hfile as [->|Hfile]; [reflexivity|].
    apply list_elem_of_singleton in Hfile as ->. reflexivity.
Defined.

(** What a file adds to a directory load does not depend on what was
    loaded before or on the lines printed so far. *)
Lemma load_directory_file_documents (fs : filesystem) (root file : str)
    (self self' : TextFileLoader.t) (out out' : stdout) (r : result unit) :
  TextFileLoader.load_directory_file fs root file self out = (r, self', out') ->
  self' = TextFileLoader.extend self
            (file_documents fs (TextFileLoader.encoding self) root file).
Proof.
  unfold file_documents, TextFileLoader.load_directory_file. simpl.
  destruct (endswith file (lit ".txt")).
  { destruct (read_text fs _ _) as [e|content]; intros [= _ <- _]; simpl;
      [by rewrite extend_nil | done]. }
  destruct (endswith file (lit ".pdf")).
  - destruct (load_pdf_file_appends fs (join root file) (TextFileLoader.encoding self))
      as (r' & new & printed & Hpdf).
    unfold TextFileLoader.init. rewrite !Hpdf.
    destruct r' as [e|[]]; intros [= _ <- _]; simpl; [by rewrite extend_nil | done].
  - intros [= _ <- _]. simpl. by rewrite extend_nil.
Qed.

Lemma extend_extend (self : TextFileLoader.t) (xs ys : list str) :
  TextFileLoader.extend (TextFileLoader.extend self xs) ys
  = TextFileLoader.extend self (xs ++ ys).
Proof. unfold TextFileLoader.extend. simpl. by rewrite app_assoc. Qed.

Lemma load_directory_files_documents (fs : filesystem) (root : str) (files : list str)
    (self self' : TextFileLoader.t) (out out' : stdout) :
  for_each (TextFileLoader.load_directory_file fs root) files self out
  = (inr (), self', out') ->
  self' = TextFileLoader.extend self
            (concat (map (file_documents fs (TextFileLoader.encoding self) root) files)).
Proof.
  revert self out. induction files as [|file files IH]; intros self out; simpl.
  - intros [= <- _]. by rewrite extend_nil.
  - destruct (TextFileLoader.load_directory_file fs root file self out)
      as [[[e|[]] s1] o1] eqn:Hfile; [done|].
    apply load_directory_file_documents in Hfile as ->.
    intros ->%IH. by rewrite extend_extend.
Qed.

(** When a directory load returns, the documents it added are those of
    the files of the walk, in the order of the walk; a file adds the same
    whatever was loaded before it, at most one document, and none when its
    name ends in neither [.txt] nor [.pdf]. *)
Theorem load_directory_order (fs : filesystem) (self self' : TextFileLoader.t)
    (out out' : stdout) :
  TextFileLoader.load_directory fs self out = (inr (), self', out') ->
  self' = TextFileLoader.extend self
            (walk_documents fs (TextFileLoader.encoding self)
               (walk fs (TextFileLoader.path self)))
  /\ (forall root file : str,
        (length (file_documents fs (TextFileLoader.encoding self) root file) <= 1)%nat
        /\ (supported file = false ->
            file_documents fs (TextFileLoader.encoding self) root file = [])).
Proof.
  intros Hload. split.
  - unfold TextFileLoader.load_directory, TextFileLoader.load_directory_walk in Hload.
    revert Hload. generalize (walk fs (TextFileLoader.path self)). clear.
    intros entries. revert self out. unfold walk_documents.
    induction entries as [|[[root dirs] files] entries IH]; intros self out; simpl.
    + intros [= <- _]. by rewrite extend_nil.
    + destruct (for_each _ files self out) as [[[e|[]] s1] o1] eqn:Hfiles; [done|].
      apply load_directory_files_documents in Hfiles as ->.
      intros ->%IH. by rewrite extend_extend.
  - intros root file. unfold file_documents, TextFileLoader.load_directory_file. simpl.
    split.
    + destruct (endswith file (lit ".txt")).
      { destruct (read_text fs _ _); simpl; lia. }
      destruct (endswith file (lit ".pdf")); [|simpl; lia].
      unfold TextFileLoader.load_pdf_file.
      destruct (TextFileLoader.read_pdf_text fs _) as [e|text_content]; [simpl; lia|].
      destruct (truthy (strip text_content)); simpl; lia.
    + unfold supported. intros [-> ->]%orb_false_iff. done.
Qed.

Lemma load_directory_order_witness :
  exists (self' : TextFileLoader.t) (out' : stdout),
    TextFileLoader.load_directory sample_fs
      (TextFileLoader.init (lit "data") (lit "utf-8")) [] = (inr (), self', out')
    /\ self' = TextFileLoader.extend (TextFileLoader.init (lit "data") (lit "utf-8"))
                 (walk_documents sample_fs (lit "utf-8") (walk sample_fs (lit "data"))).
Proof.
  assert (TextFileLoader.load_directory sample_fs
            (TextFileLoader.init (lit "data") (lit "utf-8")) []
          = (inr (),
             TextFileLoader.extend (TextFileLoader.init (lit "data") (lit "utf-8"))
               [lit "hello";
                lit "world" ++ newline ++ lit "  " ++ newline ++ lit "again" ++ newline],
             [lit "Warning: No text content extracted from data/sub/empty.pdf"]))
    as Hrun by reflexivity.
  eexists _, _. split; [exact Hrun|].
  exact (proj1 (load_directory_order sample_fs _ _ _ _ Hrun)).
Defined.

(** * Further properties of the metadata-aware loader *)

(** Blank pages at the front leave the loader as it is, with or without
    an info dictionary. *)
Lemma load_pages_blank (total : Z) (doc_info : option (gmap string str))
    (blanks : list str) (rest : list (result str)) (page_num : Z)
    (self : PDFFileLoader.t) :
  Forall blank blanks ->
  PDFFileLoader.load_pages total doc_info (map inr blanks ++ rest) page_num self
  = PDFFileLoader.load_pages total doc_info rest (page_num + len blanks) self.
Proof.
  intros Hall. revert page_num.
  induction Hall as [|t blanks Ht _ IH]; intros p; simpl.
  - unfold len. simpl. by rewrite Z.add_0_r.
  - unfold blank in Ht. rewrite Ht. simpl. rewrite IH. f_equal.
    unfold len. simpl length. lia.
Qed.

(** Pages that are extracted, with an info dictionary at hand, add the
    retained ones and their records and leave the loop at the next page. *)
Lemma load_pages_prefix (total : Z) (info : gmap string str) (texts : list str)
    (rest : list (result str)) (page_num : Z) (self : PDFFileLoader.t) :
  PDFFileLoader.load_pages total (Some info) (map inr texts ++ rest) page_num self
  = PDFFileLoader.load_pages total (Some info) rest (page_num + len texts)
      {| PDFFileLoader.documents :=
           PDFFileLoader.documents self ++ map snd (retained_pages page_num texts);
         PDFFileLoader.metadata :=
           PDFFileLoader.metadata self
           ++ map (fun jt : Z * str => PDFFileLoader.page_metadata self total info jt.1)
                  (retained_pages page_num texts);
         PDFFileLoader.path := PDFFileLoader.path self |}.
Proof.
  revert page_num self. induction texts as [|t texts IH]; intros p self.
  - simpl. unfold len. simpl. rewrite Z.add_0_r, !app_nil_r. by destruct self.
  - assert (p + len (t :: texts) = p + 1 + len texts) as ->
      by (unfold len; simpl length; lia).
    simpl. destruct (truthy (strip t)).
    + rewrite IH. simpl. by rewrite <- !app_assoc.
    + by rewrite IH.
Qed.

(** A PDF without an info dictionary loads only if all its pages are
    blank.  At its first page with text, building the record raises an
    [AttributeError], which is printed and raised again; neither list has
    changed. *)
Theorem load_pdf_without_info (fs : filesystem) (self : PDFFileLoader.t) (out : stdout)
    (pdf_reader : PdfReader) :
  open_pdf fs (PDFFileLoader.path self) = inr pdf_reader ->
  pdf_metadata pdf_reader = None ->
  (forall (blanks : list str) (text : str) (rest : list (result str)),
     pdf_pages pdf_reader = map inr blanks ++ inr text :: rest ->
     Forall blank blanks -> ~ blank text ->
     PDFFileLoader.load_pdf_with_metadata fs self out
     = (inl (AttributeError "'NoneType' object has no attribute 'get'"), self,
        out ++ [lit "Error reading PDF file " ++ PDFFileLoader.path self ++ lit ": "
                ++ lit "'NoneType' object has no attribute 'get'"]))
  /\ (forall blanks : list str,
        pdf_pages pdf_reader = map inr blanks ->
        Forall blank blanks ->
        PDFFileLoader.load_pdf_with_metadata fs self out = (inr (), self, out)).
Proof.
  intros Hopen Hinfo. unfold PDFFileLoader.load_pdf_with_metadata.
  rewrite Hopen, Hinfo. split.
  - intros blanks text rest -> Hblanks Htext.
    rewrite load_pages_blank by done. simpl.
    destruct (truthy (strip text)) eqn:Ht; [done|].
    exfalso. apply Htext. unfold blank. by destruct (strip text).
  - intros blanks -> Hblanks.
    rewrite <- (app_nil_r (map inr blanks)), load_pages_blank by done. done.
Qed.

Lemma load_pdf_without_info_witness :
  PDFFileLoader.load_pdf_with_metadata scans_fs (PDFFileLoader.init (lit "scan.pdf")) []
  = (inl (AttributeError "'NoneType' object has no attribute 'get'"),
     PDFFileLoader.init (lit "scan.pdf"),
     [lit "Error reading PDF file scan.pdf: 'NoneType' object has no attribute 'get'"])
  /\ PDFFileLoader.load_pdf_with_metadata sample_fs
       (PDFFileLoader.init (lit "data/sub/empty.pdf")) []
     = (inr (), PDFFileLoader.init (lit "data/sub/empty.pdf"), []).
Proof.
  split.
  - apply (proj1 (load_pdf_without_info scans_fs (PDFFileLoader.init (lit "scan.pdf")) []
                    scan_pdf eq_refl eq_refl) [lit " "] (lit "page two") []).
    + reflexivity.
    + repeat constructor.
    + by vm_compute.
  - apply (proj2 (load_pdf_without_info sample_fs
                    (PDFFileLoader.init (lit "data/sub/empty.pdf")) []
                    empty_pdf eq_refl eq_refl) [lit " "; []]).
    + reflexivity.
    + repeat constructor.
Defined.

(** When the extraction of a page raises, the pages before it stay
    loaded: the documents and the records of the retained ones are in the
    lists, the line naming the file is printed and the exception is
    raised again. *)
Theorem load_pdf_with_metadata_partial (fs : filesystem) (self : PDFFileLoader.t)
    (out : stdout) (pdf_reader : PdfReader) (info : gmap string str)
    (texts : list str) (e : exception) (rest : list (result str)) :
  open_pdf fs (PDFFileLoader.path self) = inr pdf_reader ->
  pdf_metadata pdf_reader = Some info ->
  pdf_pages pdf_reader = map inr texts ++ inl e :: rest ->
  PDFFileLoader.load_pdf_with_metadata fs self out
  = (inl e,
     {| PDFFileLoader.documents :=
          PDFFileLoader.documents self ++ List.filter (fun t => truthy (strip t)) texts;
        PDFFileLoader.metadata :=
          PDFFileLoader.metadata self
          ++ map (fun jt : Z * str =>
                    PDFFileLoader.page_metadata self (len (pdf_pages pdf_reader)) info jt.1)
                 (retained_pages 0 texts);
        PDFFileLoader.path := PDFFileLoader.path self |},
     out ++ [lit "Error reading PDF file " ++ PDFFileLoader.path self ++ lit ": "
             ++ exc_message e]).
Proof.
  intros Hopen Hinfo Hpages. unfold PDFFileLoader.load_pdf_with_metadata.
  rewrite Hopen, Hinfo. rewrite Hpages at 2.
  rewrite load_pages_prefix. simpl. by rewrite retained_pages_texts.
Qed.

Lemma load_pdf_with_metadata_partial_witness :
  PDFFileLoader.load_pdf_with_metadata scans_fs (PDFFileLoader.init (lit "torn.pdf")) []
  = (inl (Raise "PdfReadError" (lit "bad page")),
     {| PDFFileLoader.documents := [lit "intro"];
        PDFFileLoader.metadata :=
          [PDFFileLoader.page_metadata (PDFFileLoader.init (lit "torn.pdf")) 4 ∅ 0];
        PDFFileLoader.path := lit "torn.pdf" |},
     [lit "Error reading PDF file torn.pdf: bad page"]).
Proof.
  apply (load_pdf_with_metadata_partial scans_fs (PDFFileLoader.init (lit "torn.pdf")) []
           torn_pdf ∅ [lit "intro"; []] (Raise "PdfReadError" (lit "bad page"))
           [inr (lit "never read")]); reflexivity.
Defined.

Lemma load_pages_all (total : Z) (info : gmap string str) (texts : list str)
    (page_num : Z) (self : PDFFileLoader.t) :
  PDFFileLoader.load_pages total (Some info) (map inr texts) page_num self
  = (inr (),
     {| PDFFileLoader.documents :=
          PDFFileLoader.documents self ++ map snd (retained_pages page_num texts);
        PDFFileLoader.metadata :=
          PDFFileLoader.metadata self
          ++ map (fun jt : Z * str => PDFFileLoader.page_metadata self total info jt.1)
                 (retained_pages page_num texts);
        PDFFileLoader.path := PDFFileLoader.path self |}).
Proof.
  rewrite <- (app_nil_r (map inr texts)), load_pages_prefix. done.
Qed.

(** Every record of one load carries the path of the file, the number of
    its pages, a page number between 1 and that number, and the same
    document attributes: the entry of the info dictionary where there is
    one, ["Unknown"] for a missing title or author and the empty string
    for the other missing keys. *)
Theorem load_pdf_metadata_fields (fs : filesystem) (path : str) (out : stdout)
    (pdf_reader : PdfReader) (texts : list str) (info : gmap string str) :
  open_pdf fs path = inr pdf_reader ->
  pdf_pages pdf_reader = map inr texts ->
  pdf_metadata pdf_reader = Some info ->
  exists (metas : list PDFFileLoader.PageMetadata) (self' : PDFFileLoader.t),
    PDFFileLoader.load_documents fs (PDFFileLoader.init path) out
    = (inr (List.filter (fun t => truthy (strip t)) texts, metas), self', out)
    /\ Forall (fun m =>
                 PDFFileLoader.source_file m = path
                 /\ PDFFileLoader.total_pages m = len texts
                 /\ 1 <= PDFFileLoader.page_number m <= len texts
                 /\ PDFFileLoader.document_title m
                    = default (lit "Unknown") (info !! "/Title")
                 /\ PDFFileLoader.document_author m
                    = default (lit "Unknown") (info !! "/Author")
                 /\ PDFFileLoader.document_subject m = default [] (info !! "/Subject")
                 /\ PDFFileLoader.document_creator m = default [] (info !! "/Creator")
                 /\ PDFFileLoader.document_producer m = default [] (info !! "/Producer")
                 /\ PDFFileLoader.creation_date m = default [] (info !! "/CreationDate")
                 /\ PDFFileLoader.modification_date m = default [] (info !! "/ModDate"))
              metas.
Proof.
  intros Hopen Hpages Hinfo.
  unfold PDFFileLoader.load_documents, PDFFileLoader.load_pdf_with_metadata. simpl.
  rewrite Hopen, Hpages, Hinfo, load_pages_all. simpl.
  rewrite retained_pages_texts. eexists _, _. split; [reflexivity|].
  apply Forall_forall. intros m (jt & <- & Hin)%list_elem_of_In%in_map_iff.
  destruct jt as [j t]. apply list_elem_of_In, retained_pages_lookup in Hin
    as (Hj & Hpage & _).
  apply lookup_lt_Some in Hpage. unfold len. rewrite length_map. simpl.
  repeat split; try done; lia.
Qed.

Lemma load_pdf_metadata_fields_witness :
  exists (metas : list PDFFileLoader.PageMetadata) (self' : PDFFileLoader.t),
    PDFFileLoader.load_documents sample_fs (PDFFileLoader.init (lit "data/b.pdf")) []
    = (inr ([lit "world"; lit "again"], metas), self', [])
    /\ Forall (fun m =>
                 PDFFileLoader.document_title m = lit "World"
                 /\ PDFFileLoader.document_author m = lit "Unknown"
                 /\ PDFFileLoader.document_subject m = []) metas.
Proof.
  destruct (load_pdf_metadata_fields sample_fs (lit "data/b.pdf") [] world_pdf
              [lit "world"; lit "  "; lit "again"] {[ "/Title" := lit "World" ]}
              eq_refl eq_refl eq_refl) as (metas & self' & Hload & Hall).
  exists metas, self'. split; [exact Hload|].
  eapply Forall_impl; [exact Hall|].
  intros m (_ & _ & _ & Htitle & Hauthor & Hsubject & _).
  split; [exact Htitle|]. split; [exact Hauthor | exact Hsubject].
Defined.

(** The page loop only appends, to both lists: what it returns and adds
    is fixed by the pages, the info dictionary and the path. *)
Lemma load_pages_appends (total : Z) (doc_info : option (gmap string str))
    (rest : list (result str)) (page_num : Z) (path : str) :
  exists (r : result unit) (docs' : list str) (metas' : list PDFFileLoader.PageMetadata),
    length docs' = length metas'
    /\ forall (docs : list str) (metas : list PDFFileLoader.PageMetadata),
         PDFFileLoader.load_pages total doc_info rest page_num
           {| PDFFileLoader.documents := docs;
              PDFFileLoader.metadata := metas;
              PDFFileLoader.path := path |}
         = (r, {| PDFFileLoader.documents := docs ++ docs';
                  PDFFileLoader.metadata := metas ++ metas';
                  PDFFileLoader.path := path |}).
Proof.
  revert page_num. induction rest as [|[e|text_content] rest IH]; intros p; simpl.
  - exists (inr ()), [], []. split; [done|]. intros. by rewrite !app_nil_r.
  - exists (inl e), [], []. split; [done|]. intros. by rewrite !app_nil_r.
  - destruct (truthy (strip text_content)); [|apply IH].
    destruct doc_info as [info|].
    + destruct (IH (p + 1)) as (r & docs' & metas' & Hlen & Hloop).
      exists r, (text_content :: docs'),
             (PDFFileLoader.page_metadata (PDFFileLoader.init path) total info p :: metas').
      split; [simpl; by rewrite Hlen|].
      intros docs metas. unfold PDFFileLoader.append_page. simpl.
      rewrite Hloop. by rewrite <- !app_assoc.
    + eexists (inl _), [], []. split; [done|]. intros. by rewrite !app_nil_r.
Qed.

(** A second [load_documents] on the same loader appends the same pages
    and records again: both lists returned the second time are those of
    the first call followed by what the first call had added, and the
    lists stay aligned. *)
Theorem load_pdf_documents_twice (fs : filesystem) (self self1 : PDFFileLoader.t)
    (out out1 : stdout) (docs1 : list str) (metas1 : list PDFFileLoader.PageMetadata) :
  PDFFileLoader.load_documents fs self out = (inr (docs1, metas1), self1, out1) ->
  exists (docs' : list str) (metas' : list PDFFileLoader.PageMetadata)
         (self2 : PDFFileLoader.t),
    docs1 = PDFFileLoader.documents self ++ docs'
    /\ metas1 = PDFFileLoader.metadata self ++ metas'
    /\ length docs' = length metas'
    /\ out1 = out
    /\ PDFFileLoader.load_documents fs self1 out1
       = (inr (docs1 ++ docs', metas1 ++ metas'), self2, out1).
Proof.
  destruct self as [docs metas p].
  unfold PDFFileLoader.load_documents, PDFFileLoader.load_pdf_with_metadata. simpl.
  destruct (open_pdf fs p) as [e|pdf_reader] eqn:Hopen; [done|].
  destruct (load_pages_appends (len (pdf_pages pdf_reader)) (pdf_metadata pdf_reader)
              (pdf_pages pdf_reader) 0 p) as (r & docs' & metas' & Hlen & Hloop).
  rewrite Hloop. destruct r as [e|[]]; [done|].
  intros [= <- <- <- <-]. exists docs', metas'. eexists.
  split; [done|]. split; [done|]. split; [done|]. split; [done|].
  simpl. rewrite Hopen, Hloop. reflexivity.
Qed.

Lemma load_pdf_documents_twice_witness :
  exists (self2 : PDFFileLoader.t) (metas : list PDFFileLoader.PageMetadata),
    PDFFileLoader.load_documents sample_fs
      {| PDFFileLoader.documents := [lit "world"; lit "again"];
         PDFFileLoader.metadata :=
           [PDFFileLoader.page_metadata (PDFFileLoader.init (lit "data/b.pdf")) 3
              {[ "/Title" := lit "World" ]} 0;
            PDFFileLoader.page_metadata (PDFFileLoader.init (lit "data/b.pdf")) 3
              {[ "/Title" := lit "World" ]} 2];
         PDFFileLoader.path := lit "data/b.pdf" |} []
    = (inr ([lit "world"; lit "again"; lit "world"; lit "again"], metas), self2, [])
    /\ length metas = 4%nat.
Proof.
  destruct (load_pdf_documents_twice sample_fs _ _ _ _ _ _ load_sample_pages)
    as (docs' & metas' & self2 & Hdocs & Hmetas & Hlen & _ & Hsecond).
  simpl in Hdocs, Hmetas. subst docs' metas'.
  eexists _, _. split; [exact Hsecond|]. reflexivity.
Defined.

(** * The two PDF loaders on one file *)

Lemma page_in_terminated_lines (d : str) (texts : list str) :
  d ∈ texts -> substring_of d (concat (map (fun t => t ++ newline) texts)).
Proof.
  induction texts as [|t texts IH]; [by intros ?%elem_of_nil|].
  intros [->|Hin]%elem_of_cons; simpl.
  - exists [], (newline ++ concat (map (fun t => t ++ newline) texts)).
    simpl. by rewrite <- app_assoc.
  - destruct (IH Hin) as (before & after & Heq).
    exists ((t ++ newline) ++ before), after. rewrite Heq. by rewrite <- !app_assoc.
Qed.

(** On a PDF whose pages are all extracted and that has an info
    dictionary, both loaders return, and they agree on whether the file
    has text: [load_pdf_file] adds its one document exactly when the
    metadata-aware loader retains a page, and every retained page is a
    contiguous part of that document. *)
Theorem pdf_loaders_agree (fs : filesystem) (path encoding : str) (out : stdout)
    (pdf_reader : PdfReader) (texts : list str) (info : gmap string str) :
  open_pdf fs path = inr pdf_reader ->
  pdf_pages pdf_reader = map inr texts ->
  pdf_metadata pdf_reader = Some info ->
  exists (self1 : TextFileLoader.t) (out1 : stdout) (docs : list str)
         (metas : list PDFFileLoader.PageMetadata) (self2 : PDFFileLoader.t),
    TextFileLoader.load_pdf_file fs (TextFileLoader.init path encoding) out
    = (inr (), self1, out1)
    /\ PDFFileLoader.load_documents fs (PDFFileLoader.init path) out
       = (inr (docs, metas), self2, out)
    /\ (TextFileLoader.documents self1 = [] <-> docs = [])
    /\ (forall d : str, d ∈ docs ->
          exists doc : str,
            TextFileLoader.documents self1 = [doc] /\ substring_of d doc).
Proof.
  intros Hopen Hpages Hinfo.
  rewrite (load_pdf_file_texts fs (TextFileLoader.init path encoding) out
             pdf_reader texts Hopen Hpages).
  unfold PDFFileLoader.load_documents, PDFFileLoader.load_pdf_with_metadata. simpl.
  rewrite Hopen, Hpages, Hinfo, load_pages_all. simpl.
  rewrite retained_pages_texts, join_lines_space.
  assert (forall d : str,
            d ∈ List.filter (fun t => truthy (strip t)) texts ->
            d ∈ texts /\ forallb (forallb isspace) texts = false) as Hretained.
  { intros d (Hin & Ht)%list_elem_of_In%filter_In. split; [by apply list_elem_of_In|].
    rewrite truthy_strip in Ht. apply negb_true_iff in Ht.
    apply not_true_iff_false. intros Hall. rewrite forallb_forall in Hall.
    by rewrite (Hall d Hin) in Ht. }
  destruct (forallb (forallb isspace) texts) eqn:Hall; eexists _, _, _, _, _;
    (split; [reflexivity|]); (split; [reflexivity|]); simpl.
  - split.
    + split; [|done]. intros _.
      destruct (List.filter _ texts) as [|d l] eqn:Hf; [done|].
      assert (d ∈ d :: l) as Hd by left.
      by apply Hretained in Hd as [_ ?].
    + intros d [_ ?]%Hretained. done.
  - split.
    + split; [done|]. intros Hnil. exfalso.
      assert (forallb (forallb isspace) texts = true); [|congruence].
      apply forallb_forall. intros t Hin.
      destruct (forallb isspace t) eqn:Ht; [done|]. exfalso.
      assert (In t (List.filter (fun t => truthy (strip t)) texts)) as Hin'.
      { apply filter_In. split; [done|]. by rewrite truthy_strip, Ht. }
      by rewrite Hnil in Hin'.
    + intros d [Hin _]%Hretained. eexists. split; [reflexivity|].
      by apply page_in_terminated_lines.
Qed.

Lemma pdf_loaders_agree_witness :
  exists (self1 : TextFileLoader.t) (out1 : stdout) (docs : list str)
         (metas : list PDFFileLoader.PageMetadata) (self2 : PDFFileLoader.t),
    TextFileLoader.load_pdf_file sample_fs
      (TextFileLoader.init (lit "data/b.pdf") (lit "utf-8")) []
    = (inr (), self1, out1)
    /\ PDFFileLoader.load_documents sample_fs (PDFFileLoader.init (lit "data/b.pdf")) []
       = (inr (docs, metas), self2, [])
    /\ (TextFileLoader.documents self1 = [] <-> docs = []).
Proof.
  destruct (pdf_loaders_agree sample_fs (lit "data/b.pdf") (lit "utf-8") [] world_pdf
              [lit "world"; lit "  "; lit "again"] {[ "/Title" := lit "World" ]}
              eq_refl eq_refl eq_refl)
    as (self1 & out1 & docs & metas & self2 & Hfile & Hpages & Hiff & _).
  by exists self1, out1, docs, metas, self2.
Defined.

(** * The demonstration *)

Lemma getitem_lookup {A} (l : list A) (i : nat) (x : A) :
  l !! i = Some x ->
  getitem l (Z.of_nat i) = inr x /\ getitem l (Z.of_nat i - len l) = inr x.
Proof.
  intros Hi. pose proof (lookup_lt_Some _ _ _ Hi) as Hlt. unfold getitem, len. split.
  - destruct (Z.ltb_spec (Z.of_nat i) 0) as [?|_]; [lia|].
    destruct (Z.ltb_spec (Z.of_nat i) 0) as [?|_]; [lia|].
    by rewrite Nat2Z.id, Hi.
  - destruct (Z.ltb_spec (Z.of_nat i - Z.of_nat (length l)) 0) as [_|?]; [|lia].
    replace (Z.of_nat i - Z.of_nat (length l) + Z.of_nat (length l)) with (Z.of_nat i)
      by lia.
    destruct (Z.ltb_spec (Z.of_nat i) 0) as [?|_]; [lia|].
    by rewrite Nat2Z.id, Hi.
Qed.

Lemma getitem_past_end {A} (l : list A) (i : Z) :
  len l <= i -> getitem l i = inl (IndexError "list index out of range").
Proof.
  intros Hi. unfold getitem. pose proof (len_nonneg l).
  destruct (Z.ltb_spec i 0) as [?|_]; [lia|].
  destruct (Z.ltb_spec i 0) as [?|_]; [lia|].
  rewrite lookup_ge_None_2; [done|]. unfold len in Hi. lia.
Qed.

(** What the demonstration loads when its file can be read. *)
Lemma main_load (fs : filesystem) (content : str) (out : stdout) :
  isdir fs (lit "data/KingLear.txt") = false ->
  isfile fs (lit "data/KingLear.txt") = true ->
  read_text fs (lit "data/KingLear.txt") (lit "utf-8") = inr content ->
  TextFileLoader.load fs (TextFileLoader.init (lit "data/KingLear.txt") (lit "utf-8")) out
  = (inr (),
     TextFileLoader.extend (TextFileLoader.init (lit "data/KingLear.txt") (lit "utf-8"))
       [content],
     out).
Proof.
  intros Hdir Hfile Hread. unfold TextFileLoader.load, TextFileLoader.load_file.
  change (TextFileLoader.path (TextFileLoader.init (lit "data/KingLear.txt") (lit "utf-8")))
    with (lit "data/KingLear.txt").
  change (TextFileLoader.encoding
            (TextFileLoader.init (lit "data/KingLear.txt") (lit "utf-8")))
    with (lit "utf-8").
  rewrite Hdir, Hfile, Hread.
  by change (endswith (lit "data/KingLear.txt") (lit ".txt")) with true.
Qed.

(** The chunks the demonstration prints from. *)
Lemma main_chunks (content : str) :
  split_texts {| chunk_size := 1000; chunk_overlap := 200 |} [content]
  = split_with content 1000 200.
Proof.
  unfold split_texts, split_with.
  change (CharacterTextSplitter.init 1000 200)
    with (inr (A := exception) {| chunk_size := 1000; chunk_overlap := 200 |}).
  cbn [split_texts_loop].
  destruct (split _ content) as [e|cs]; reflexivity.
Qed.



(** On a file of at most 800 characters the demonstration does not
    finish: there is at most one chunk, so after printing the count, and
    the chunk and a separator if there is one, the next index raises an
    [IndexError]. *)
Theorem main_short_file (fs : filesystem) (content : str) (out : stdout) :
  isdir fs (lit "data/KingLear.txt") = false ->
  isfile fs (lit "data/KingLear.txt") = true ->
  read_text fs (lit "data/KingLear.txt") (lit "utf-8") = inr content ->
  len content <= 800 ->
  main fs out
  = (inl (IndexError "list index out of range"),
     out ++ match content with
            | [] => [lit "0"]
            | _ => [lit "1"; content; dashes]
            end).
Proof.
  intros Hdir Hfile Hread Hlen. unfold main. cbv zeta.
  rewrite (main_load fs content out Hdir Hfile Hread).
  change (CharacterTextSplitter.init 1000 200)
    with (inr (A := exception) {| chunk_size := 1000; chunk_overlap := 200 |}).
  change (TextFileLoader.documents _) with ([] ++ [content]). simpl app.
  cbv beta iota. rewrite main_chunks, split_with_closed by lia.
  destruct content as [|c content].
  - by vm_compute.
  - assert (chunk_count (c :: content) 1000 200 = 1) as ->.
    { apply ceil_div_unique; [lia|]. unfold len in *. simpl length in *. lia. }
    change (seq 0 (Z.to_nat 1)) with [0%nat]. simpl map.
    change (0 * (1000 - 200) + 1000) with (0 + 1000).
    rewrite slice_take_drop by lia. simpl drop.
    rewrite take_ge by (unfold len in Hlen; lia).
    destruct (getitem_lookup [c :: content] 0 _ eq_refl) as [Hfirst _].
    change (Z.of_nat 0) with 0 in Hfirst. rewrite Hfirst.
    rewrite getitem_past_end by (by vm_compute).
    rewrite <- !app_assoc. reflexivity.
Qed.

Lemma main_short_file_witness :
  main (play_fs (lit "Blow, winds, and crack your cheeks!")) []
  = (inl (IndexError "list index out of range"),
     [lit "1"; lit "Blow, winds, and crack your cheeks!"; dashes]).
Proof.
  apply (main_short_file (play_fs (lit "Blow, winds, and crack your cheeks!"))
           (lit "Blow, winds, and crack your cheeks!") []); try reflexivity.
  by vm_compute.
Defined.

(** On a file of more than 800 characters the demonstration finishes:
    there are at least two chunks, and it prints their number, the first
    two and the last two, a separator after each but the last. *)
Theorem main_long_file (fs : filesystem) (content : str) (out : stdout) :
  isdir fs (lit "data/KingLear.txt") = false ->
  isfile fs (lit "data/KingLear.txt") = true ->
  read_text fs (lit "data/KingLear.txt") (lit "utf-8") = inr content ->
  800 < len content ->
  exists (chunks : list str) (first second before_last last : str),
    split_with content 1000 200 = inr chunks
    /\ chunks !! 0%nat = Some first
    /\ chunks !! 1%nat = Some second
    /\ chunks !! (length chunks - 2)%nat = Some before_last
    /\ chunks !! (length chunks - 1)%nat = Some last
    /\ main fs out
       = (inr (),
          out ++ [str_of_int (len chunks); first; dashes; second; dashes;
                  before_last; dashes; last]).
Proof.
  intros Hdir Hfile Hread Hlen. unfold main. cbv zeta.
  rewrite (main_load fs content out Hdir Hfile Hread).
  change (CharacterTextSplitter.init 1000 200)
    with (inr (A := exception) {| chunk_size := 1000; chunk_overlap := 200 |}).
  change (TextFileLoader.documents _) with ([] ++ [content]). simpl app.
  cbv beta iota. rewrite main_chunks, split_with_closed by lia.
  set (chunks := map _ (seq 0 _)).
  assert (2 <= length chunks)%nat as Hmany.
  { unfold chunks. rewrite length_map, length_seq.
    pose proof (ceil_div_spec (len content) (1000 - 200) ltac:(lia)) as Hc.
    fold (chunk_count content 1000 200) in Hc. lia. }
  destruct (lookup_lt_is_Some_2 chunks 0) as [first H0]; [lia|].
  destruct (lookup_lt_is_Some_2 chunks 1) as [second H1]; [lia|].
  destruct (lookup_lt_is_Some_2 chunks (length chunks - 2)) as [before_last H2]; [lia|].
  destruct (lookup_lt_is_Some_2 chunks (length chunks - 1)) as [last H3]; [lia|].
  exists chunks, first, second, before_last, last.
  split; [done|]. split; [done|]. split; [done|]. split; [done|]. split; [done|].
  destruct (getitem_lookup _ _ _ H0) as [G0 _].
  destruct (getitem_lookup _ _ _ H1) as [G1 _].
  destruct (getitem_lookup _ _ _ H2) as [_ G2].
  destruct (getitem_lookup _ _ _ H3) as [_ G3].
  replace (Z.of_nat (length chunks - 2) - len chunks) with (-2) in G2
    by (unfold len; lia).
  replace (Z.of_nat (length chunks - 1) - len chunks) with (-1) in G3
    by (unfold len; lia).
  change (Z.of_nat 0) with 0 in G0. change (Z.of_nat 1) with 1 in G1.
  rewrite G0, G1, G2, G3. by rewrite <- !app_assoc.
Qed.

Lemma main_long_file_witness :
  exists (chunks : list str) (first second before_last last : str),
    split_with (replicate 1700 97%N) 1000 200 = inr chunks
    /\ chunks !! 0%nat = Some first
    /\ chunks !! 1%nat = Some second
    /\ chunks !! (length chunks - 2)%nat = Some before_last
    /\ chunks !! (length chunks - 1)%nat = Some last
    /\ main (play_fs (replicate 1700 97%N)) []
       = (inr (),
          [str_of_int (len chunks); first; dashes; second; dashes;
           before_last; dashes; last]).
Proof.
  apply (main_long_file (play_fs (replicate 1700 97%N)) (replicate 1700 97%N) []);
    reflexivity.
Defined.

Example main_long_play :
  main (play_fs (replicate 1700 97%N)) []
  = (inr (),
     [lit "3"; replicate 1000 97%N; dashes; replicate 900 97%N; dashes;
      replicate 900 97%N; dashes; replicate 100 97%N]).
Proof. by vm_compute. Qed.
